(** * Stall-detection callback of [script/exercice7.py]

    A shallow embedding of the Gurobi progress callback that stops a MIP
    search once the relative gap has not improved for 15 seconds, and the
    properties of the stall monitor it implements.

    Python's [float] is IEEE 754 binary64; it is modelled by Rocq's
    primitive [float], whose operations are the same correctly rounded
    binary64 operations.  Python's [int] is modelled by [Z].  The message
    the callback prints before it stops the solver is not modelled.

    Facts that hold for all floats are obtained from the Standard
    Library's specification of the primitive operations ([FloatAxioms],
    over [SpecFloat]); facts about given numbers are computed. *)

From Stdlib Require Import ZArith List Bool Lia Floats.
Import ListNotations.

Set Warnings "-inexact-float".

(* ===================================================================== *)
(** * Python values and exceptions *)
(* ===================================================================== *)

Module Py.

(** The exceptions the operators used by the callback can raise. *)
Inductive exn : Type :=
| ZeroDivisionError
| TypeError.

(** Outcome of a computation that may raise. *)
Inductive result (A : Type) : Type :=
| Ok (a : A)
| Raise (e : exn).

Arguments Ok {A} a.
Arguments Raise {A} e.

Definition bind {A B : Type} (r : result A) (k : A -> result B) : result B :=
  match r with
  | Ok a => k a
  | Raise e => Raise e
  end.

(** [max(a, b)] on two floats: the first argument is kept unless the
    second compares strictly greater ([b > a]). *)
Definition max (a b : float) : float :=
  if PrimFloat.ltb a b then b else a.

(** [x / y] on floats: raises on a zero divisor (of either sign),
    otherwise the IEEE quotient. *)
Definition truediv (x y : float) : result float :=
  if PrimFloat.eqb y 0%float then Raise ZeroDivisionError
  else Ok (PrimFloat.div x y).

(** [x - y] where [y] is an attribute that may still hold [None]:
    [float - None] raises [TypeError]. *)
Definition sub_opt (x : float) (y : option float) : result float :=
  match y with
  | Some t => Ok (PrimFloat.sub x t)
  | None => Raise TypeError
  end.

End Py.

Notation "x <- c ;; k" := (Py.bind c (fun x => k))
  (at level 61, c at next level, right associativity).

(* ===================================================================== *)
(** * The callback of exercice7.py *)
(* ===================================================================== *)

Open Scope float_scope.

(** [GRB.Callback.MIP], the code with which the solver invokes the
    callback while it explores the MIP tree. *)
Definition GRB_Callback_MIP : Z := 3%Z.

(** What [model.cbGet] answers inside one invocation of the callback. *)
Record Model : Type := mkModel {
  MIP_SOLCNT : Z;       (* number of feasible solutions found *)
  MIP_OBJBND : float;   (* best known bound *)
  MIP_OBJBST : float    (* best known objective *)
}.

(** [class CallbackData]: the state kept between two invocations. *)
Record CallbackData : Type := mkCallbackData {
  last_gap_change_time : option float;
  last_gap : float
}.

(** [CallbackData.__init__]. *)
Definition CallbackData_init : CallbackData :=
  {| last_gap_change_time := None; last_gap := infinity |}.

(** The two module-level parameters of the stopping criterion.  The
    duration is the Python int [15]; a float is compared with an int by
    value, and 15 is a binary64 number. *)
Definition max_time_between_gap_updates : float := 15.
Definition epsilon_to_compare_gap : float := 1e-4.

(** What one invocation asks of the solver: [TERMINATE] when it called
    [model.terminate()], [CONTINUE] when it just returned. *)
Inductive Decision : Type := CONTINUE | TERMINATE.

(** Lines 28-31: the relative MIP gap. *)
Definition mip_gap (best_obj best_bound : float) : Py.result float :=
  if best_obj =? 0 then Py.Ok infinity
  else Py.truediv (abs (best_obj - best_bound)) (Py.max 1e-10 (abs best_obj)).

(** [callback(model, where, cbdata=cbdata)].  [now] is what [time.time()]
    returns during this invocation (it is read at most once).  The result
    is the new content of [cbdata] and the decision, or the exception that
    escapes. *)
Definition callback (cbdata : CallbackData) (where_ : Z) (model : Model)
    (now : float) : Py.result (CallbackData * Decision) :=
  if negb (where_ =? GRB_Callback_MIP)%Z then Py.Ok (cbdata, CONTINUE)
  else
    let solcount := MIP_SOLCNT model in
    if (solcount =? 0)%Z then Py.Ok (cbdata, CONTINUE)
    else
      let best_bound := MIP_OBJBND model in
      let best_obj := MIP_OBJBST model in
      gap <- mip_gap best_obj best_bound ;;
      if last_gap cbdata =? infinity then
        Py.Ok ({| last_gap_change_time := Some now; last_gap := gap |}, CONTINUE)
      else if epsilon_to_compare_gap <? last_gap cbdata - gap then
        Py.Ok ({| last_gap_change_time := Some now; last_gap := gap |}, CONTINUE)
      else
        elapsed <- Py.sub_opt now (last_gap_change_time cbdata) ;;
        if max_time_between_gap_updates <? elapsed then
          Py.Ok (cbdata, TERMINATE)
        else Py.Ok (cbdata, CONTINUE).

(** The monitor's entry point: an invocation in the MIP phase. *)
Definition evaluate (cbdata : CallbackData) (snapshot : Model) (now : float)
    : Py.result (CallbackData * Decision) :=
  callback cbdata GRB_Callback_MIP snapshot now.

(* ===================================================================== *)
(** * Runs: the successive invocations made by [model.optimize] *)
(* ===================================================================== *)

(** One invocation: the [where] code, the solver's figures and the clock. *)
Record Call : Type := mkCall {
  call_where : Z;
  call_model : Model;
  call_now : float
}.

(** An evaluate call: an invocation in the MIP phase. *)
Definition evaluate_call (snapshot : Model) (now : float) : Call :=
  mkCall GRB_Callback_MIP snapshot now.

(** The callback invoked on each call in turn, sharing one [cbdata];
    an exception ends the run.  The result is the final state and the
    decisions in order. *)
Fixpoint run (cbdata : CallbackData) (calls : list Call)
    : Py.result (CallbackData * list Decision) :=
  match calls with
  | [] => Py.Ok (cbdata, [])
  | c :: rest =>
      r <- callback cbdata (call_where c) (call_model c) (call_now c) ;;
      r' <- run (fst r) rest ;;
      Py.Ok (fst r', snd r :: snd r')
  end.

(** The content of [cbdata] before the first call and after each call of
    a run, in order. *)
Fixpoint states (cbdata : CallbackData) (calls : list Call) : list CallbackData :=
  cbdata ::
  match calls with
  | [] => []
  | c :: rest =>
      match callback cbdata (call_where c) (call_model c) (call_now c) with
      | Py.Ok r => states (fst r) rest
      | Py.Raise _ => []
      end
  end.

(** States a run started on a fresh [CallbackData()] can be in. *)
Inductive reachable : CallbackData -> Prop :=
| reachable_init : reachable CallbackData_init
| reachable_step s where_ model now s' d :
    reachable s ->
    callback s where_ model now = Py.Ok (s', d) ->
    reachable s'.

(** The two states of the monitor, told apart the way the callback does:
    by whether [last_gap] still holds the initial [inf]. *)
Inductive Phase : Type := AWAITING_FIRST_SOLUTION | TRACKING.

Definition phase (cbdata : CallbackData) : Phase :=
  if last_gap cbdata =? infinity then AWAITING_FIRST_SOLUTION else TRACKING.

(** In the TRACKING state the time of the last improvement is recorded. *)
Definition tracking_has_time (cbdata : CallbackData) : Prop :=
  (last_gap cbdata =? infinity) = false -> last_gap_change_time cbdata <> None.

(** A call in which the monitor observes a snapshot with a solution. *)
Definition observes_solution (c : Call) : bool :=
  (call_where c =? GRB_Callback_MIP)%Z && (0 <? MIP_SOLCNT (call_model c))%Z.

Definition is_terminate (d : Decision) : bool :=
  match d with TERMINATE => true | CONTINUE => false end.

(** How many times a run asked the solver to stop. *)
Definition count_terminate (ds : list Decision) : nat :=
  length (filter is_terminate ds).

(** The relative gap as the specification words it: infinite on a zero
    objective, otherwise [|obj - bound| / max(1e-10, |obj|)], the quotient
    being the IEEE one. *)
Definition spec_gap (best_obj best_bound : float) : float :=
  if best_obj =? 0 then infinity
  else abs (best_obj - best_bound) / Py.max 1e-10 (abs best_obj).

(** The snapshots the specification calls invalid: a negative solution
    count, or a non-finite objective or bound while a solution exists. *)
Definition invalid_snapshot (m : Model) : bool :=
  (MIP_SOLCNT m <? 0)%Z
  || ((0 <? MIP_SOLCNT m)%Z
      && (negb (is_finite (MIP_OBJBST m)) || negb (is_finite (MIP_OBJBND m)))).

(** [not_above a b]: the way [last_gap] moves from [a] to [b] in one or
    more calls: it stays, or goes strictly down, or leaves the initial
    [inf]. *)
Definition not_above (a b : float) : Prop :=
  b = a \/ (b <? a) = true \/ (a =? infinity) = true.

(** A call the callback reads the gap of: made in the MIP phase, with a
    solution count other than 0 (lines 16 and 21). *)
Definition reads_gap (c : Call) : bool :=
  (call_where c =? GRB_Callback_MIP)%Z
  && negb (MIP_SOLCNT (call_model c) =? 0)%Z.

(** The decisions of a run paired with their calls, restricted to the
    calls whose gap is read. *)
Definition decisions_on_read (calls : list Call) (ds : list Decision)
    : list Decision :=
  map snd (filter (fun p => reads_gap (fst p)) (combine calls ds)).

(** ** The scenario of the specification *)

(** Objective 10000 with bounds 9000, 9050 and 9051: gaps 0.10, 0.095
    and 0.0949. *)
Definition snapshot_gap_0_10 : Model := mkModel 1 9000 10000.
Definition snapshot_gap_0_095 : Model := mkModel 1 9050 10000.
Definition snapshot_gap_0_0949 : Model := mkModel 1 9051 10000.

Definition scenario_calls : list Call :=
  [ evaluate_call snapshot_gap_0_10 0;
    evaluate_call snapshot_gap_0_095 5;
    evaluate_call snapshot_gap_0_0949 20 ].

(* ===================================================================== *)
(** * Exact values of binary64 numbers *)
(* ===================================================================== *)

(** The facts about float comparison and subtraction the monitor relies
    on are proved on [SpecFloat], the specification the primitive
    operations satisfy.  A binary64 number is read as an integer multiple
    of [2^-1074], the smallest positive one. *)

Module B64.

Open Scope Z_scope.

(** Exponent of the least significant digit kept for a number of
    magnitude [2^x]. *)
Definition fexp64 (x : Z) : Z := Z.max (x - 53) (-1074).

(** [m / 2^n] rounded to the nearest integer, ties to even. *)
Definition rne (m n : Z) : Z :=
  let q := m / 2 ^ n in
  let r := m mod 2 ^ n in
  if (2 ^ n <? 2 * r) || ((2 ^ n =? 2 * r) && Z.odd q) then q + 1 else q.

(** What [binary_round_aux] computes on an exact input, spelt with
    integer division. *)
Definition round_aux_result (s : bool) (m e : Z) : spec_float :=
  let n := Z.max (fexp64 (Zdigits2 m + e) - e) 0 in
  let m1 := rne m n in
  let e1 := e + n in
  let n' := Z.max (fexp64 (Zdigits2 m1 + e1) - e1) 0 in
  match m1 / 2 ^ n' with
  | Z0 => S754_zero s
  | Zpos q => if e1 + n' <=? 971 then S754_finite s q (e1 + n') else S754_infinity s
  | Zneg _ => S754_nan
  end.

(** The value given to the infinities: [2^1024], in units of [2^-1074]. *)
Definition BIG : Z := 2 ^ 2098.

(** Value of a number in units of [2^-1074]. *)
Definition Zval (f : spec_float) : Z :=
  match f with
  | S754_zero _ => 0
  | S754_nan => 0
  | S754_infinity s => cond_Zopp s BIG
  | S754_finite s m e => cond_Zopp s (Zpos m * 2 ^ (e + 1074))
  end.

(** Rounding of a positive integer to 53 significant digits. *)
Definition RND (X : Z) : Z :=
  let Q := Z.max (Z.log2 X + 1 - 53) 0 in
  rne X Q * 2 ^ Q.

(** Rounding of any integer, with overflow to the infinities. *)
Definition Rz (X : Z) : Z :=
  match X with
  | Z0 => 0
  | Zpos _ => Z.min (RND X) BIG
  | Zneg p => - Z.min (RND (Zpos p)) BIG
  end.

Definition finite_or_zero (f : spec_float) : bool :=
  match f with
  | S754_zero _ | S754_finite _ _ _ => true
  | _ => false
  end.

End B64.

(* ===================================================================== *)
(** * Rounding, order and subtraction of binary64 numbers *)
(* ===================================================================== *)

Module B64Facts.

Import B64.
Open Scope Z_scope.

Lemma iter_pos_nat {A : Type} (f : A -> A) (p : positive) :
  forall x, iter_pos f p x = Nat.iter (Pos.to_nat p) f x.
Proof.
  induction p as [p IH | p IH | ]; intro x; cbn [iter_pos].
  - rewrite !IH, Pos2Nat.inj_xI, <- Nat.iter_succ_r, <- Nat.iter_add.
    f_equal. lia.
  - rewrite !IH, Pos2Nat.inj_xO, <- Nat.iter_add. f_equal. lia.
  - reflexivity.
Qed.

Lemma shr_1_nonneg m r s :
  0 <= m ->
  shr_1 (Build_shr_record m r s) = Build_shr_record (m / 2) (Z.odd m) (r || s).
Proof.
  intros Hm. rewrite <- Z.div2_div.
  destruct m as [ | [p | p | ] | p ]; try lia; reflexivity.
Qed.

Lemma iter_shr_1 (k : nat) (m : Z) :
  0 <= m ->
  Nat.iter (S k) shr_1 (Build_shr_record m false false) =
  Build_shr_record (m / 2 ^ (Z.of_nat k + 1)) (Z.testbit m (Z.of_nat k))
                   (negb (m mod 2 ^ Z.of_nat k =? 0)).
Proof.
  intros Hm. induction k as [ | k IH ].
  - cbn [Nat.iter]. rewrite shr_1_nonneg by assumption.
    change (Z.of_nat 0) with 0. rewrite Z.bit0_odd, Z.pow_0_r, Z.mod_1_r.
    reflexivity.
  - change (Nat.iter (S (S k)) shr_1 ?x) with (shr_1 (Nat.iter (S k) shr_1 x)).
    rewrite IH. 
    assert (Hk : 0 <= Z.of_nat k) by lia.
    assert (Hpow : 0 < 2 ^ Z.of_nat k) by (apply Z.pow_pos_nonneg; lia).
    rewrite shr_1_nonneg by (apply Z.div_pos; [ assumption | apply Z.pow_pos_nonneg; lia ]).
    replace (Z.of_nat (S k)) with (Z.of_nat k + 1) by lia.
    f_equal.
    + rewrite Z.div_div by lia.
      rewrite (Z.pow_add_r 2 (Z.of_nat k + 1) 1) by lia. reflexivity.
    + rewrite (Z.testbit_odd m (Z.of_nat k + 1)), Z.shiftr_div_pow2 by lia.
      reflexivity.
    + rewrite (Z.pow_add_r 2 (Z.of_nat k) 1), Z.pow_1_r by lia.
      rewrite Z.rem_mul_r by lia.
      rewrite <- Z.testbit_spec' by lia.
      destruct (Z.testbit m (Z.of_nat k)); cbn [Z.b2z orb].
      * symmetry. apply negb_true_iff, Z.eqb_neq.
        pose proof (Z.mod_pos_bound m (2 ^ Z.of_nat k) Hpow). lia.
      * rewrite Z.mul_0_r, Z.add_0_r. reflexivity.
Qed.

Lemma rne_0 m : rne m 0 = m.
Proof.
  unfold rne. rewrite Z.pow_0_r, Z.mod_1_r, Z.div_1_r. reflexivity.
Qed.

(** Shifting out [n] bits and rounding on the recorded location is the
    rounding to nearest even of [m / 2^n]. *)
Lemma round_iter_shr (n : positive) (m : Z) :
  0 <= m ->
  let R := iter_pos shr_1 n (Build_shr_record m false false) in
  round_nearest_even (shr_m R) (loc_of_shr_record R) = rne m (Zpos n)
  /\ shr_m R = m / 2 ^ Zpos n.
Proof.
  intros Hm R. subst R. rewrite iter_pos_nat.
  destruct (Pos2Nat.is_succ n) as [k Hk]. rewrite Hk, iter_shr_1 by assumption.
  assert (Hn : Zpos n = Z.of_nat k + 1) by lia.
  rewrite <- Hn. split; [ | reflexivity ].
  cbn [shr_m]. unfold rne.
  assert (H0 : 0 <= Z.of_nat k) by lia.
  assert (Hpow : 0 < 2 ^ Z.of_nat k) by (apply Z.pow_pos_nonneg; lia).
  assert (Hmod : m mod 2 ^ Zpos n =
                 m mod 2 ^ Z.of_nat k + 2 ^ Z.of_nat k * Z.b2z (Z.testbit m (Z.of_nat k))).
  { rewrite Hn, (Z.pow_add_r 2 (Z.of_nat k) 1), Z.pow_1_r by lia.
    rewrite Z.rem_mul_r by lia. rewrite <- Z.testbit_spec' by lia. reflexivity. }
  assert (Hp2 : 2 ^ Zpos n = 2 * 2 ^ Z.of_nat k).
  { rewrite Hn, Z.pow_add_r, Z.pow_1_r by lia. lia. }
  pose proof (Z.mod_pos_bound m (2 ^ Z.of_nat k) Hpow) as Hb.
  rewrite Hmod, Hp2.
  destruct (Z.testbit m (Z.of_nat k)); cbn [Z.b2z];
    destruct (Z.eqb_spec (m mod 2 ^ Z.of_nat k) 0) as [E | E];
    cbn [negb loc_of_shr_record round_nearest_even].
  - rewrite E. 
    replace (2 * 2 ^ Z.of_nat k <? 2 * (0 + 2 ^ Z.of_nat k * 1)) with false by (symmetry; apply Z.ltb_ge; lia).
    replace (2 * 2 ^ Z.of_nat k =? 2 * (0 + 2 ^ Z.of_nat k * 1)) with true by (symmetry; apply Z.eqb_eq; lia).
    cbn [orb andb]. rewrite <- Z.negb_odd.
    destruct (Z.odd (m / (2 * 2 ^ Z.of_nat k))); reflexivity.
  - replace (2 * 2 ^ Z.of_nat k <? 2 * (m mod 2 ^ Z.of_nat k + 2 ^ Z.of_nat k * 1)) with true by (symmetry; apply Z.ltb_lt; lia).
    reflexivity.
  - rewrite E.
    replace (2 * 2 ^ Z.of_nat k <? 2 * (0 + 2 ^ Z.of_nat k * 0)) with false by (symmetry; apply Z.ltb_ge; lia).
    replace (2 * 2 ^ Z.of_nat k =? 2 * (0 + 2 ^ Z.of_nat k * 0)) with false by (symmetry; apply Z.eqb_neq; lia).
    reflexivity.
  - replace (2 * 2 ^ Z.of_nat k <? 2 * (m mod 2 ^ Z.of_nat k + 2 ^ Z.of_nat k * 0)) with false by (symmetry; apply Z.ltb_ge; lia).
    replace (2 * 2 ^ Z.of_nat k =? 2 * (m mod 2 ^ Z.of_nat k + 2 ^ Z.of_nat k * 0)) with false by (symmetry; apply Z.eqb_neq; lia).
    reflexivity.
Qed.


Lemma fexp_64 x : fexp prec emax x = fexp64 x.
Proof. reflexivity. Qed.

Lemma rne_nonneg m n : 0 <= m -> 0 <= rne m n.
Proof.
  intros Hm. unfold rne.
  assert (0 <= m / 2 ^ n).
  { destruct (Z.le_gt_cases 0 n) as [Hn | Hn].
    - apply Z.div_pos; [ assumption | apply Z.pow_pos_nonneg; lia ].
    - rewrite Z.pow_neg_r by assumption. rewrite Z.div_0_r. lia. }
  destruct (_ || _); lia.
Qed.

Lemma shr_fexp_exact (m e : Z) :
  0 <= m ->
  let n := Z.max (fexp64 (Zdigits2 m + e) - e) 0 in
  let R := fst (shr_fexp prec emax m e loc_Exact) in
  round_nearest_even (shr_m R) (loc_of_shr_record R) = rne m n
  /\ shr_m R = m / 2 ^ n
  /\ snd (shr_fexp prec emax m e loc_Exact) = e + n.
Proof.
  intros Hm n R. subst n R. unfold shr_fexp. rewrite fexp_64.
  cbn [shr_record_of_loc]. unfold shr.
  destruct (fexp64 (Zdigits2 m + e) - e) as [ | p | p ] eqn:E; cbn [fst snd].
  - change (Z.max 0 0) with 0. rewrite rne_0, Z.pow_0_r, Z.div_1_r, Z.add_0_r.
    cbn. auto.
  - replace (Z.max (Z.pos p) 0) with (Z.pos p) by lia.
    destruct (round_iter_shr p m Hm) as [H1 H2]. auto.
  - replace (Z.max (Z.neg p) 0) with 0 by lia.
    rewrite rne_0, Z.pow_0_r, Z.div_1_r, Z.add_0_r. cbn. auto.
Qed.

Lemma binary_round_aux_exact (s : bool) (m e : Z) :
  0 <= m ->
  binary_round_aux prec emax s m e loc_Exact = round_aux_result s m e.
Proof.
  intros Hm. unfold binary_round_aux, round_aux_result.
  destruct (shr_fexp_exact m e Hm) as (H1 & _ & H3).
  destruct (shr_fexp prec emax m e loc_Exact) as [R e1] eqn:E1.
  cbn [fst snd] in H1, H3. rewrite H1, H3.
  set (m1 := rne m _).
  assert (Hm1 : 0 <= m1) by (apply rne_nonneg; assumption).
  set (e1' := e + _).
  destruct (shr_fexp_exact m1 e1' Hm1) as (_ & H2 & H4).
  destruct (shr_fexp prec emax m1 e1' loc_Exact) as [R' e2] eqn:E2.
  cbn [fst snd] in H2, H4. rewrite H2, H4. reflexivity.
Qed.


Lemma digits2_size p : digits2_pos p = Pos.size p.
Proof. induction p; cbn; congruence. Qed.

Lemma Zdigits2_log2 m : 0 < m -> Zdigits2 m = Z.log2 m + 1.
Proof.
  destruct m as [ | p | p ]; try lia. intros _.
  cbn [Zdigits2]. rewrite digits2_size.
  destruct p; cbn [Z.log2 Pos.size]; lia.
Qed.

Lemma pow2_pos k : 0 <= k -> 0 < 2 ^ k.
Proof. intros. apply Z.pow_pos_nonneg; lia. Qed.

Lemma rne_scale m n k :
  0 <= k -> 0 <= n -> rne (m * 2 ^ k) (n + k) = rne m n.
Proof.
  intros Hk Hn. unfold rne.
  pose proof (pow2_pos k Hk). pose proof (pow2_pos n Hn).
  rewrite Z.pow_add_r by assumption.
  rewrite Z.div_mul_cancel_r by lia.
  rewrite Z.mul_mod_distr_r by lia.
  replace (2 ^ n * 2 ^ k <? 2 * (m mod 2 ^ n * 2 ^ k))
    with (2 ^ n <? 2 * (m mod 2 ^ n)).
  2:{ destruct (Z.ltb_spec (2 ^ n) (2 * (m mod 2 ^ n)));
      symmetry; [ apply Z.ltb_lt | apply Z.ltb_ge ]; nia. }
  replace (2 ^ n * 2 ^ k =? 2 * (m mod 2 ^ n * 2 ^ k))
    with (2 ^ n =? 2 * (m mod 2 ^ n)).
  2:{ destruct (Z.eqb_spec (2 ^ n) (2 * (m mod 2 ^ n)));
      symmetry; [ apply Z.eqb_eq | apply Z.eqb_neq ]; nia. }
  reflexivity.
Qed.

Lemma rne_bounds m n :
  0 <= n -> m / 2 ^ n <= rne m n <= m / 2 ^ n + 1.
Proof. intros. unfold rne. destruct (_ || _); lia. Qed.

(** A multiple of [2^n] is left as it is. *)
Lemma rne_exact q n : 0 <= n -> rne (q * 2 ^ n) n = q.
Proof.
  intros Hn. unfold rne. pose proof (pow2_pos n Hn).
  rewrite Z.div_mul, Z.mod_mul by lia.
  replace (2 ^ n <? 2 * 0) with false by (symmetry; apply Z.ltb_ge; lia).
  replace (2 ^ n =? 2 * 0) with false by (symmetry; apply Z.eqb_neq; lia).
  reflexivity.
Qed.

Lemma div_pow2_bounds m a n :
  0 <= n -> 0 <= a -> 2 ^ (a + n) <= m < 2 ^ (a + 1 + n) ->
  2 ^ a <= m / 2 ^ n < 2 ^ (a + 1).
Proof.
  intros Hn Ha [H1 H2]. pose proof (pow2_pos n Hn).
  rewrite Z.pow_add_r in H1, H2 by lia.
  split.
  - apply Z.div_le_lower_bound; lia.
  - apply Z.div_lt_upper_bound; lia.
Qed.

Lemma canonical_facts mf ef :
  0 < mf -> fexp64 (Z.log2 mf + 1 + ef) = ef ->
  -1074 <= ef /\ Z.log2 mf + 1 <= 53 /\ (-1074 < ef -> Z.log2 mf + 1 = 53).
Proof. unfold fexp64. lia. Qed.

Lemma log2_bounds m : 0 < m -> 2 ^ Z.log2 m <= m < 2 ^ (Z.log2 m + 1).
Proof. intros. apply Z.log2_spec. assumption. Qed.

Lemma valid_finite s q e :
  valid_binary (S754_finite s q e) =
  (fexp64 (Z.log2 (Zpos q) + 1 + e) =? e) && (e <=? 971).
Proof.
  cbn [valid_binary]. unfold bounded, canonical_mantissa.
  rewrite fexp_64. change (Zpos (digits2_pos q)) with (Zdigits2 (Zpos q)).
  rewrite Zdigits2_log2 by lia. reflexivity.
Qed.

Lemma valid_finite_facts s m e :
  valid_binary (S754_finite s m e) = true ->
  -1074 <= e <= 971 /\ Z.log2 (Zpos m) + 1 <= 53 /\
  (-1074 < e -> Z.log2 (Zpos m) + 1 = 53) /\
  fexp64 (Z.log2 (Zpos m) + 1 + e) = e.
Proof.
  rewrite valid_finite. intros H. apply andb_true_iff in H. destruct H as [H1 H2].
  apply Z.eqb_eq in H1. apply Z.leb_le in H2.
  destruct (canonical_facts (Zpos m) e ltac:(lia) H1) as (? & ? & ?).
  repeat split; assumption.
Qed.

Lemma finite_value_bounds s m e :
  valid_binary (S754_finite s m e) = true ->
  0 < Zpos m * 2 ^ (e + 1074) < BIG.
Proof.
  intros H. destruct (valid_finite_facts s m e H) as (He & Hd & _ & _).
  pose proof (pow2_pos (e + 1074) ltac:(lia)) as Hp.
  split; [ lia | ].
  pose proof (log2_bounds (Zpos m) ltac:(lia)) as [_ Hm].
  assert (Zpos m < 2 ^ 53).
  { eapply Z.lt_le_trans; [ apply Hm | ]. apply Z.pow_le_mono_r; lia. }
  assert (Hle : 2 ^ (e + 1074) <= 2 ^ 2045) by (apply Z.pow_le_mono_r; lia).
  unfold BIG. replace 2098 with (53 + 2045) by lia.
  rewrite (Z.pow_add_r 2 53 2045) by lia.
  generalize dependent (2 ^ 2045). generalize dependent (2 ^ 53).
  generalize dependent (2 ^ (e + 1074)). intros. nia.
Qed.

Lemma overflow_value m e :
  2 ^ 52 <= Zpos m -> 971 < e -> BIG <= Zpos m * 2 ^ (e + 1074).
Proof.
  intros Hm He.
  assert (Hle : 2 ^ 2046 <= 2 ^ (e + 1074)) by (apply Z.pow_le_mono_r; lia).
  pose proof (pow2_pos 2046 ltac:(lia)) as Hp.
  unfold BIG. replace 2098 with (52 + 2046) by lia.
  rewrite (Z.pow_add_r 2 52 2046) by lia.
  generalize dependent (2 ^ 2046). generalize dependent (2 ^ 52).
  generalize dependent (2 ^ (e + 1074)). intros. nia.
Qed.

(** The result of rounding [m * 2^e], when [m] has at least as many digits
    as the format keeps at this magnitude. *)
Lemma round_aux_value (s : bool) (m e : Z) :
  0 < m -> -1074 <= e -> e <= fexp64 (Z.log2 m + 1 + e) ->
  let r := round_aux_result s m e in
  valid_binary r = true /\ r <> S754_nan /\
  Zval r = cond_Zopp s (Z.min (RND (m * 2 ^ (e + 1074))) BIG).
Proof.
  intros Hm He Hfe r. subst r. unfold round_aux_result.
  rewrite Zdigits2_log2 by assumption.
  set (d := Z.log2 m + 1 + e) in *.
  set (fe := fexp64 d) in *.
  replace (Z.max (fe - e) 0) with (fe - e) by lia.
  set (n := fe - e). replace (e + n) with fe by (unfold n; lia).
  set (m1 := rne m n).
  assert (Hn : 0 <= n) by (unfold n; lia).
  set (dm := d - fe).
  assert (Hdm : 1 <= dm <= 53) by (unfold dm, fe, fexp64, d; pose proof (Z.log2_nonneg m); lia).
  assert (Hq : 2 ^ (dm - 1) <= m / 2 ^ n < 2 ^ dm).
  { replace dm with (dm - 1 + 1) at 2 by lia.
    apply div_pow2_bounds; try lia.
    replace (dm - 1 + n) with (Z.log2 m) by (unfold dm, n, d; lia).
    replace (dm - 1 + 1 + n) with (Z.log2 m + 1) by (unfold dm, n, d; lia).
    apply log2_bounds; assumption. }
  pose proof (rne_bounds m n Hn) as Hr. fold m1 in Hr.
  pose proof (pow2_pos (dm - 1) ltac:(lia)) as Hp1.
  assert (Hm1 : 0 < m1) by lia.
  (* the value being rounded *)
  assert (HRND : RND (m * 2 ^ (e + 1074)) = m1 * 2 ^ (fe + 1074)).
  { unfold RND. rewrite Z.log2_mul_pow2 by lia.
    replace (Z.max (e + 1074 + Z.log2 m + 1 - 53) 0) with (n + (e + 1074))
      by (unfold n, fe, fexp64, d; lia).
    rewrite rne_scale by lia. fold m1.
    replace (n + (e + 1074)) with (fe + 1074) by (unfold n; lia). reflexivity. }
  rewrite HRND.
  (* the second normalisation *)
  assert (Hfin : exists mf n', 0 <= n' /\ m1 / 2 ^ n' = Zpos mf /\
                               Zpos mf * 2 ^ n' = m1 /\
                               fexp64 (Z.log2 (Zpos mf) + 1 + (fe + n')) = fe + n' /\
                               Z.max (fexp64 (Zdigits2 m1 + fe) - fe) 0 = n').
  { rewrite Zdigits2_log2 by assumption.
    destruct (Z.eq_dec m1 (2 ^ dm)) as [E | E].
    - rewrite E, Z.log2_pow2 by lia.
      destruct (Z.eq_dec dm 53) as [E53 | E53].
      + exists (Z.to_pos (2 ^ 52)), 1. rewrite E53.
        replace (Z.max (fexp64 (53 + 1 + fe) - fe) 0) with 1
          by (unfold dm, fe, fexp64 in *; lia).
        repeat split; try lia; try reflexivity.
        change (Z.log2 (Z.pos (Z.to_pos (2 ^ 52)))) with 52.
        unfold dm, fe, fexp64 in *. lia.
      + exists (Z.to_pos (2 ^ dm)), 0.
        pose proof (pow2_pos dm ltac:(lia)).
        rewrite Z2Pos.id by assumption.
        rewrite Z.pow_0_r, Z.div_1_r, Z.log2_pow2 by lia.
        repeat split; try lia.
        all: unfold dm, fe, fexp64 in *; lia.
    - exists (Z.to_pos m1), 0. rewrite Z2Pos.id by assumption.
      rewrite Z.pow_0_r, Z.div_1_r.
      assert (Hl : Z.log2 m1 = dm - 1).
      { apply Z.log2_unique; [ lia | ].
        replace (Z.succ (dm - 1)) with dm by lia. lia. }
      rewrite Hl.
      repeat split; try lia.
      all: unfold dm, fe, fexp64 in *; lia. }
  destruct Hfin as (mf & n' & Hn' & Hdiv & Hmul & Hcan & Hmax).
  rewrite Hmax, Hdiv.
  destruct (canonical_facts (Zpos mf) (fe + n') ltac:(lia) Hcan) as (Hlo & Hdig & Hnorm).
  pose proof (log2_bounds (Zpos mf) ltac:(lia)) as Hmf.
  assert (Hval : m1 * 2 ^ (fe + 1074) = Zpos mf * 2 ^ (fe + n' + 1074)).
  { rewrite <- Hmul. replace (fe + n' + 1074) with (n' + (fe + 1074)) by lia.
    rewrite (Z.pow_add_r 2 n' (fe + 1074)) by (unfold fe, fexp64; lia). ring. }
  rewrite Hval.
  destruct (Z.leb_spec (fe + n') 971) as [Hle | Hgt].
  - assert (Hvalid : valid_binary (S754_finite s mf (fe + n')) = true).
    { rewrite valid_finite. apply andb_true_iff. split.
      - apply Z.eqb_eq. assumption.
      - apply Z.leb_le. assumption. }
    split; [ exact Hvalid | split; [ discriminate | ] ].
    cbn [Zval]. f_equal. symmetry. apply Z.min_l.
    pose proof (finite_value_bounds s mf (fe + n') Hvalid). lia.
  - split; [ reflexivity | split; [ discriminate | ] ].
    cbn [Zval]. f_equal. symmetry. apply Z.min_r.
    apply overflow_value; [ | assumption ].
    replace 52 with (Z.log2 (Zpos mf)) by lia. apply Hmf.
Qed.


Lemma iter_xO_pow2 p d : Zpos (Pos.iter xO p d) = Zpos p * 2 ^ Zpos d.
Proof.
  induction d as [ | d IH ] using Pos.peano_ind.
  - cbn [Pos.iter]. rewrite Z.pow_1_r. lia.
  - rewrite Pos.iter_succ, Pos2Z.inj_xO, IH, Pos2Z.inj_succ, Z.pow_succ_r by lia.
    ring.
Qed.

Lemma shl_align_spec p e e' :
  let (mz, ez) := shl_align p e e' in
  ez = Z.min e e' /\ Zpos mz = Zpos p * 2 ^ (e - ez).
Proof.
  unfold shl_align. destruct (e' - e) as [ | d | d ] eqn:E.
  - split; [ lia | ]. replace (e - e) with 0 by lia. rewrite Z.pow_0_r. lia.
  - split; [ lia | ]. replace (e - e) with 0 by lia. rewrite Z.pow_0_r. lia.
  - split; [ lia | ]. rewrite iter_xO_pow2. f_equal. f_equal. lia.
Qed.

Lemma binary_round_value (s : bool) (p : positive) (e : Z) :
  -1074 <= e ->
  let r := binary_round prec emax s p e in
  valid_binary r = true /\ r <> S754_nan /\
  Zval r = cond_Zopp s (Z.min (RND (Zpos p * 2 ^ (e + 1074))) BIG).
Proof.
  intros He r. subst r. unfold binary_round. rewrite fexp_64.
  pose proof (shl_align_spec p e (fexp64 (Zpos (digits2_pos p) + e))) as Hal.
  destruct (shl_align p e _) as [mz ez].
  destruct Hal as [Hez Hmz].
  rewrite binary_round_aux_exact by lia.
  change (Zpos (digits2_pos p)) with (Zdigits2 (Zpos p)) in Hez.
  rewrite Zdigits2_log2 in Hez by lia.
  assert (Hez' : -1074 <= ez <= e) by (unfold fexp64 in Hez; lia).
  assert (Hlog : Z.log2 (Zpos mz) = e - ez + Z.log2 (Zpos p)).
  { rewrite Hmz. apply Z.log2_mul_pow2; lia. }
  assert (Hval : Zpos p * 2 ^ (e + 1074) = Zpos mz * 2 ^ (ez + 1074)).
  { rewrite Hmz. replace (e + 1074) with (e - ez + (ez + 1074)) by lia.
    rewrite Z.pow_add_r by lia. ring. }
  rewrite Hval.
  apply round_aux_value; try lia.
  rewrite Hlog. replace (e - ez + Z.log2 (Zpos p) + 1 + ez) with (Z.log2 (Zpos p) + 1 + e) by lia.
  lia.
Qed.

Lemma binary_normalize_value (M e : Z) :
  -1074 <= e ->
  let r := binary_normalize prec emax M e false in
  valid_binary r = true /\ r <> S754_nan /\ Zval r = Rz (M * 2 ^ (e + 1074)).
Proof.
  intros He r. subst r.
  pose proof (pow2_pos (e + 1074) ltac:(lia)) as Hp.
  destruct M as [ | p | p ]; cbn [binary_normalize].
  - repeat split; discriminate.
  - destruct (binary_round_value false p e He) as (Hv & Hn & Hz).
    repeat split; try assumption. rewrite Hz. cbn [cond_Zopp].
    destruct (Z.pos p * 2 ^ (e + 1074)) eqn:E; try lia. reflexivity.
  - destruct (binary_round_value true p e He) as (Hv & Hn & Hz).
    repeat split; try assumption. rewrite Hz. cbn [cond_Zopp].
    destruct (Z.neg p * 2 ^ (e + 1074)) as [ | q | q ] eqn:E; try lia.
    cbn [Rz]. replace (Z.pos p * 2 ^ (e + 1074)) with (Z.pos q) by lia.
    reflexivity.
Qed.


Lemma Zval_bound f : valid_binary f = true -> - BIG <= Zval f <= BIG.
Proof.
  assert (0 < BIG) by (apply pow2_pos; lia).
  destruct f as [ s | s | | s m e ]; cbn [Zval]; intros Hv.
  - lia.
  - destruct s; cbn [cond_Zopp]; lia.
  - lia.
  - pose proof (finite_value_bounds s m e Hv). destruct s; cbn [cond_Zopp]; lia.
Qed.

(** On canonical positive numbers the order on (exponent, mantissa) is the
    order of the values. *)
Lemma finite_compare m1 e1 m2 e2 :
  valid_binary (S754_finite false m1 e1) = true ->
  valid_binary (S754_finite false m2 e2) = true ->
  match e1 ?= e2 with
  | Lt => Lt
  | Gt => Gt
  | Eq => Pos.compare_cont Eq m1 m2
  end = (Zpos m1 * 2 ^ (e1 + 1074) ?= Zpos m2 * 2 ^ (e2 + 1074)).
Proof.
  intros H1 H2.
  destruct (valid_finite_facts _ _ _ H1) as (He1 & Hd1 & Hn1 & _).
  destruct (valid_finite_facts _ _ _ H2) as (He2 & Hd2 & Hn2 & _).
  pose proof (log2_bounds (Zpos m1) ltac:(lia)) as [Hl1 Hu1].
  pose proof (log2_bounds (Zpos m2) ltac:(lia)) as [Hl2 Hu2].
  assert (Hlt : forall ma ea mb eb,
             -1074 <= ea -> ea < eb -> Zpos ma < 2 ^ 53 -> 2 ^ 52 <= Zpos mb ->
             Zpos ma * 2 ^ (ea + 1074) < Zpos mb * 2 ^ (eb + 1074)).
  { intros ma ea mb eb Ha Hab Hma Hmb.
    pose proof (pow2_pos (ea + 1074) ltac:(lia)) as Hp.
    assert (Hpe : 2 * 2 ^ (ea + 1074) <= 2 ^ (eb + 1074)).
    { rewrite <- Z.pow_succ_r by lia. apply Z.pow_le_mono_r; lia. }
    change (2 ^ 53) with (2 * 2 ^ 52) in Hma.
    generalize dependent (2 ^ 52). generalize dependent (2 ^ (ea + 1074)).
    generalize dependent (2 ^ (eb + 1074)). intros. nia. }
  assert (Hm53 : forall m, Z.log2 (Zpos m) + 1 <= 53 -> Zpos m < 2 ^ 53).
  { intros m Hd. pose proof (log2_bounds (Zpos m) ltac:(lia)) as [_ Hu].
    eapply Z.lt_le_trans; [ apply Hu | ]. apply Z.pow_le_mono_r; lia. }
  assert (Hm52 : forall m, Z.log2 (Zpos m) + 1 = 53 -> 2 ^ 52 <= Zpos m).
  { intros m Hd. pose proof (log2_bounds (Zpos m) ltac:(lia)) as [Hl _].
    replace 52 with (Z.log2 (Zpos m)) by lia. assumption. }
  destruct (Z.compare_spec e1 e2) as [E | E | E].
  - subst e2. pose proof (pow2_pos (e1 + 1074) ltac:(lia)) as Hp.
    change (Pos.compare_cont Eq m1 m2) with (Zpos m1 ?= Zpos m2).
    generalize dependent (2 ^ (e1 + 1074)). intros P HP.
    destruct (Z.compare_spec (Zpos m1) (Zpos m2)) as [E | E | E]; symmetry;
      [ apply Z.compare_eq_iff | apply Z.compare_lt_iff | apply Z.compare_gt_iff ];
      nia.
  - symmetry. apply Z.compare_lt_iff. apply Hlt; auto with zarith.
  - symmetry. apply Z.compare_gt_iff. apply Hlt; auto with zarith.
Qed.

Ltac cmp_solve :=
  cbn [cond_Zopp]; f_equal; symmetry;
  first [ apply Z.compare_eq_iff; lia
        | apply Z.compare_lt_iff; lia
        | apply Z.compare_gt_iff; lia ].

Lemma SFcompare_Zval a b :
  valid_binary a = true -> valid_binary b = true ->
  a <> S754_nan -> b <> S754_nan ->
  SFcompare a b = Some (Zval a ?= Zval b).
Proof.
  intros Ha Hb Na Nb.
  assert (HB : 0 < BIG) by (apply pow2_pos; lia).
  destruct a as [ sa | sa | | sa ma ea ]; try congruence;
    destruct b as [ sb | sb | | sb mb eb ]; try congruence;
    cbn [SFcompare Zval];
    try pose proof (finite_value_bounds _ _ _ Ha) as Ba;
    try pose proof (finite_value_bounds _ _ _ Hb) as Bb.
  - reflexivity.
  - destruct sb; cmp_solve.
  - destruct sb; cmp_solve.
  - destruct sa; cmp_solve.
  - destruct sa, sb; cmp_solve.
  - destruct sa, sb; cmp_solve.
  - destruct sa; cmp_solve.
  - destruct sa, sb; cmp_solve.
  - destruct sa, sb; cbn [cond_Zopp]; f_equal.
    + rewrite Z.compare_opp, <- (finite_compare mb eb ma ea) by assumption.
      rewrite (Z.compare_antisym eb ea), Pos.compare_cont_antisym.
      destruct (eb ?= ea); reflexivity.
    + symmetry. apply Z.compare_lt_iff. lia.
    + symmetry. apply Z.compare_gt_iff. lia.
    + apply finite_compare; assumption.
Qed.


Lemma rne_mono X Y Q : 0 <= Q -> X <= Y -> rne X Q <= rne Y Q.
Proof.
  intros HQ HXY. pose proof (pow2_pos Q HQ) as HP.
  pose proof (Z.div_le_mono X Y (2 ^ Q) HP HXY) as Hq.
  pose proof (rne_bounds X Q HQ) as [_ HX]. pose proof (rne_bounds Y Q HQ) as [HY _].
  destruct (Z.eq_dec (X / 2 ^ Q) (Y / 2 ^ Q)) as [E | E]; [ | lia ].
  assert (Hr : X mod 2 ^ Q <= Y mod 2 ^ Q).
  { rewrite !Z.mod_eq by lia. rewrite E. lia. }
  unfold rne. rewrite E.
  generalize dependent (2 ^ Q). intros P _ _ _ _ _ Hr.
  destruct (Z.ltb_spec P (2 * (X mod P))), (Z.ltb_spec P (2 * (Y mod P)));
    destruct (Z.eqb_spec P (2 * (X mod P))), (Z.eqb_spec P (2 * (Y mod P)));
    destruct (Z.odd (Y / P)); cbn [orb andb]; lia.
Qed.

Lemma RND_upper X : 0 < X -> RND X <= 2 ^ (Z.log2 X + 1).
Proof.
  intros HX. unfold RND.
  pose proof (Z.log2_nonneg X) as HL.
  set (Q := Z.max (Z.log2 X + 1 - 53) 0).
  assert (HQ : 0 <= Q <= Z.log2 X + 1) by (unfold Q; lia).
  pose proof (pow2_pos Q ltac:(lia)) as HP.
  pose proof (rne_bounds X Q ltac:(lia)) as [_ Hr].
  assert (Hq : X / 2 ^ Q < 2 ^ (Z.log2 X + 1 - Q)).
  { apply Z.div_lt_upper_bound; [ assumption | ].
    rewrite <- Z.pow_add_r by lia.
    replace (Q + (Z.log2 X + 1 - Q)) with (Z.log2 X + 1) by lia.
    apply log2_bounds. assumption. }
  replace (Z.log2 X + 1) with (Z.log2 X + 1 - Q + Q) by lia.
  rewrite Z.pow_add_r by lia.
  apply Z.mul_le_mono_nonneg_r; lia.
Qed.

Lemma RND_lower X : 0 < X -> 2 ^ Z.log2 X <= RND X.
Proof.
  intros HX. unfold RND.
  pose proof (Z.log2_nonneg X) as HL.
  set (Q := Z.max (Z.log2 X + 1 - 53) 0).
  assert (HQ : 0 <= Q <= Z.log2 X) by (unfold Q; lia).
  pose proof (pow2_pos Q ltac:(lia)) as HP.
  pose proof (rne_bounds X Q ltac:(lia)) as [Hr _].
  assert (Hq : 2 ^ (Z.log2 X - Q) <= X / 2 ^ Q).
  { apply Z.div_le_lower_bound; [ assumption | ].
    rewrite <- Z.pow_add_r by lia.
    replace (Q + (Z.log2 X - Q)) with (Z.log2 X) by lia.
    apply log2_bounds. assumption. }
  replace (Z.log2 X) with (Z.log2 X - Q + Q) at 1 by lia.
  rewrite Z.pow_add_r by lia.
  apply Z.mul_le_mono_nonneg_r; lia.
Qed.

Lemma RND_pos X : 0 < X -> 0 < RND X.
Proof.
  intros HX. pose proof (RND_lower X HX).
  pose proof (pow2_pos (Z.log2 X) (Z.log2_nonneg X)). lia.
Qed.

Lemma RND_mono X Y : 0 < X -> X <= Y -> RND X <= RND Y.
Proof.
  intros HX HXY.
  pose proof (Z.log2_le_mono X Y HXY) as HL.
  destruct (Z.eq_dec (Z.max (Z.log2 X + 1 - 53) 0) (Z.max (Z.log2 Y + 1 - 53) 0))
    as [E | E].
  - unfold RND. rewrite <- E.
    set (Q := Z.max (Z.log2 X + 1 - 53) 0).
    apply Z.mul_le_mono_nonneg_r.
    + pose proof (pow2_pos Q ltac:(unfold Q; lia)). lia.
    + apply rne_mono; [ unfold Q; lia | assumption ].
  - eapply Z.le_trans; [ apply RND_upper; assumption | ].
    eapply Z.le_trans; [ | apply RND_lower; lia ].
    apply Z.pow_le_mono_r; lia.
Qed.

Lemma Rz_mono X Y : X <= Y -> Rz X <= Rz Y.
Proof.
  intros HXY. assert (HB : 0 < BIG) by (apply pow2_pos; lia).
  destruct X as [ | p | p ], Y as [ | q | q ]; cbn [Rz]; try lia.
  - pose proof (RND_pos (Zpos q) ltac:(lia)). lia.
  - pose proof (RND_mono (Zpos p) (Zpos q) ltac:(lia) HXY). lia.
  - pose proof (RND_pos (Zpos p) ltac:(lia)). lia.
  - pose proof (RND_pos (Zpos p) ltac:(lia)).
    pose proof (RND_pos (Zpos q) ltac:(lia)). lia.
  - pose proof (RND_mono (Zpos q) (Zpos p) ltac:(lia) ltac:(lia)). lia.
Qed.

Lemma Rz_pos X : 0 < Rz X -> 0 < X.
Proof.
  assert (HB : 0 < BIG) by (apply pow2_pos; lia).
  destruct X as [ | p | p ]; cbn [Rz]; try lia.
  pose proof (RND_pos (Zpos p) ltac:(lia)). lia.
Qed.

(** A binary64 number is its own rounding. *)
Lemma Rz_exact f :
  valid_binary f = true -> f <> S754_nan ->
  (forall s, f <> S754_infinity s) -> Rz (Zval f) = Zval f.
Proof.
  intros Hv Hn Hi.
  destruct f as [ s | s | | s m e ];
    [ reflexivity | exfalso; apply (Hi s); reflexivity | congruence | ].
  pose proof (finite_value_bounds s m e Hv) as [Hlo Hhi].
  destruct (valid_finite_facts s m e Hv) as (He & _ & _ & Hcan).
  assert (HR : RND (Zpos m * 2 ^ (e + 1074)) = Zpos m * 2 ^ (e + 1074)).
  { unfold RND. rewrite Z.log2_mul_pow2 by lia.
    replace (Z.max (e + 1074 + Z.log2 (Zpos m) + 1 - 53) 0) with (e + 1074)
      by (unfold fexp64 in Hcan; lia).
    rewrite rne_exact by lia. reflexivity. }
  cbn [Zval]. destruct s; cbn [cond_Zopp].
  + destruct (Zpos m * 2 ^ (e + 1074)) as [ | q | q ] eqn:E; try lia.
    cbn [Z.opp Rz]. rewrite HR. lia.
  + destruct (Zpos m * 2 ^ (e + 1074)) as [ | q | q ] eqn:E; try lia.
    cbn [Rz]. rewrite HR. lia.
Qed.


Lemma Zval_opp_finite s m e :
  Zval (S754_finite (negb s) m e) = - Zval (S754_finite s m e).
Proof. cbn [Zval]. destruct s; cbn [negb cond_Zopp]; lia. Qed.

Lemma shl_align_value m e ez :
  -1074 <= ez -> ez <= e ->
  Zpos (fst (shl_align m e ez)) * 2 ^ (ez + 1074) = Zpos m * 2 ^ (e + 1074).
Proof.
  intros H1 H2. pose proof (shl_align_spec m e ez) as H.
  destruct (shl_align m e ez) as [mz ez']. destruct H as [Hez Hmz].
  cbn [fst]. rewrite Hmz. replace ez' with ez by lia.
  replace (e + 1074) with (e - ez + (ez + 1074)) by lia.
  rewrite (Z.pow_add_r 2 (e - ez) (ez + 1074)) by lia. ring.
Qed.

(** The difference of two finite numbers is the rounding of the exact
    difference. *)
Lemma SFsub_value a b :
  valid_binary a = true -> valid_binary b = true ->
  finite_or_zero a = true -> finite_or_zero b = true ->
  let r := SF64sub a b in
  valid_binary r = true /\ r <> S754_nan /\ Zval r = Rz (Zval a - Zval b).
Proof.
  intros Ha Hb Fa Fb r. subst r.
  destruct a as [ sa | sa | | sa ma ea ]; try discriminate;
    destruct b as [ sb | sb | | sb mb eb ]; try discriminate;
    unfold SF64sub; cbn [SFsub].
  - destruct sa, sb; repeat split; discriminate.
  - repeat split; [ exact Hb | discriminate | ].
    change (Zval (S754_zero sa)) with 0.
    replace (0 - Zval (S754_finite sb mb eb))
      with (Zval (S754_finite (negb sb) mb eb))
      by (rewrite Zval_opp_finite; lia).
    apply eq_sym, Rz_exact.
    + exact Hb.
    + discriminate.
    + discriminate.
  - repeat split; [ exact Ha | discriminate | ].
    change (Zval (S754_zero sb)) with 0. rewrite Z.sub_0_r.
    apply eq_sym, Rz_exact; [ exact Ha | discriminate | discriminate ].
  - destruct (valid_finite_facts _ _ _ Ha) as (Hea & _).
    destruct (valid_finite_facts _ _ _ Hb) as (Heb & _).
    set (ez := Z.min ea eb).
    destruct (binary_normalize_value
                (cond_Zopp sa (Zpos (fst (shl_align ma ea ez))) -
                 cond_Zopp sb (Zpos (fst (shl_align mb eb ez)))) ez ltac:(lia))
      as (Hv & Hn & Hz).
    repeat split; try assumption.
    rewrite Hz. f_equal. cbn [Zval].
    rewrite <- (shl_align_value ma ea ez), <- (shl_align_value mb eb ez) by lia.
    destruct sa, sb; cbn [cond_Zopp]; ring.
Qed.

Lemma SFltb_Zval a b :
  valid_binary a = true -> valid_binary b = true ->
  a <> S754_nan -> b <> S754_nan ->
  SFltb a b = (Zval a <? Zval b).
Proof.
  intros. unfold SFltb, Z.ltb. rewrite SFcompare_Zval by assumption. reflexivity.
Qed.

Lemma SFleb_Zval a b :
  valid_binary a = true -> valid_binary b = true ->
  a <> S754_nan -> b <> S754_nan ->
  SFleb a b = (Zval a <=? Zval b).
Proof.
  intros. unfold SFleb, Z.leb. rewrite SFcompare_Zval by assumption.
  destruct (Zval a ?= Zval b); reflexivity.
Qed.

Lemma SFltb_nan_r a : SFltb a S754_nan = false.
Proof. destruct a; reflexivity. Qed.

Lemma SFleb_not_nan a b : SFleb a b = true -> a <> S754_nan /\ b <> S754_nan.
Proof. destruct a, b; cbn; intros; split; congruence. Qed.

Lemma SFltb_not_nan a b : SFltb a b = true -> a <> S754_nan /\ b <> S754_nan.
Proof. destruct a, b; cbn; intros; split; congruence. Qed.

(** If the rounded difference is above a non-negative number, the first
    operand is the larger one. *)
Lemma SFsub_gt_nonneg c a b :
  valid_binary c = true -> valid_binary a = true -> valid_binary b = true ->
  0 <= Zval c ->
  SFltb c (SF64sub a b) = true -> SFltb b a = true.
Proof.
  intros Hc Ha Hb Hc0 Hlt.
  destruct (SFltb_not_nan _ _ Hlt) as [Nc Nr].
  destruct (finite_or_zero a) eqn:Fa; [ destruct (finite_or_zero b) eqn:Fb | ].
  - destruct (SFsub_value a b Ha Hb Fa Fb) as (Hv & Hn & Hz).
    rewrite SFltb_Zval in Hlt by assumption. apply Z.ltb_lt in Hlt.
    rewrite Hz in Hlt.
    assert (0 < Zval a - Zval b) by (apply Rz_pos; lia).
    rewrite SFltb_Zval; try assumption.
    + apply Z.ltb_lt. lia.
    + destruct b; try discriminate; congruence.
    + destruct a; try discriminate; congruence.
  - destruct a as [ sa | sa | | sa ma ea ]; try discriminate;
      destruct b as [ sb | [ | ] | | sb mb eb ]; try discriminate;
      unfold SF64sub in *; cbn [SFsub negb] in *;
      try reflexivity; try congruence;
      destruct c; try destruct s; cbn in Hlt; try discriminate.
  - destruct a as [ sa | [ | ] | | sa ma ea ]; try discriminate;
      destruct b as [ sb | [ | ] | | sb mb eb ];
      unfold SF64sub in *; cbn [SFsub negb] in *;
      try reflexivity; try congruence;
      destruct c; try destruct s; cbn in Hlt; try discriminate.
Qed.

(** Subtraction is monotone in its first operand, as seen by a threshold. *)
Lemma SFsub_mono_l c a a' t :
  valid_binary c = true -> valid_binary a = true -> valid_binary a' = true ->
  valid_binary t = true ->
  SFleb a a' = true ->
  SFltb c (SF64sub a t) = true -> SFltb c (SF64sub a' t) = true.
Proof.
  intros Hc Ha Ha' Ht Hle Hlt.
  destruct (SFltb_not_nan _ _ Hlt) as [Nc Nr].
  destruct (SFleb_not_nan _ _ Hle) as [Na Na'].
  assert (HB : 0 < BIG) by (apply pow2_pos; lia).
  rewrite SFleb_Zval in Hle by assumption. apply Z.leb_le in Hle.
  destruct (finite_or_zero t) eqn:Ft.
  - (* finite subtrahend *)
    destruct (finite_or_zero a) eqn:Fa; [ destruct (finite_or_zero a') eqn:Fa' | ].
    + destruct (SFsub_value a t Ha Ht Fa Ft) as (Hv & Hn & Hz).
      destruct (SFsub_value a' t Ha' Ht Fa' Ft) as (Hv' & Hn' & Hz').
      rewrite SFltb_Zval in Hlt |- * by assumption.
      apply Z.ltb_lt in Hlt. apply Z.ltb_lt.
      rewrite Hz in Hlt. rewrite Hz'.
      eapply Z.lt_le_trans; [ exact Hlt | apply Rz_mono; lia ].
    + (* a' is infinite, hence +inf *)
      pose proof (Zval_bound a Ha) as Bnd.
      destruct a' as [ s' | [ | ] | | s' m' e' ]; try discriminate; try congruence.
      * (* -inf is below every finite number *)
        exfalso. cbn [Zval cond_Zopp] in Hle.
        destruct a as [ sa | sa | | sa ma ea ]; try discriminate; cbn [Zval] in Hle.
        -- lia.
        -- pose proof (finite_value_bounds _ _ _ Ha). destruct sa; cbn [cond_Zopp] in Hle; lia.
      * destruct (SFsub_value a t Ha Ht Fa Ft) as (Hv & Hn & Hz).
        assert (E : SF64sub (S754_infinity false) t = S754_infinity false)
          by (destruct t as [ | [ | ] | | ]; try discriminate; reflexivity).
        rewrite E. rewrite SFltb_Zval in Hlt |- * by (assumption || discriminate || reflexivity).
        apply Z.ltb_lt in Hlt. apply Z.ltb_lt.
        pose proof (Zval_bound _ Hv). cbn [Zval cond_Zopp]. lia.
    + (* a is infinite *)
      destruct a as [ sa | [ | ] | | sa ma ea ]; try discriminate; try congruence.
      * (* a = -inf: the difference is -inf, below every threshold *)
        exfalso.
        assert (E : SF64sub (S754_infinity true) t = S754_infinity true)
          by (destruct t as [ | [ | ] | | ]; try discriminate; reflexivity).
        rewrite E in Hlt. destruct c as [ | [ | ] | | ]; discriminate.
      * (* a = +inf, so a' = +inf *)
        assert (a' = S754_infinity false) as ->.
        { pose proof (Zval_bound a' Ha') as Bnd. cbn [Zval cond_Zopp] in Hle.
          destruct a' as [ s' | [ | ] | | s' m' e' ]; try congruence; cbn [Zval cond_Zopp] in Hle.
          - lia.
          - lia.
          - pose proof (finite_value_bounds _ _ _ Ha'). destruct s'; cbn [cond_Zopp] in Hle; lia. }
        exact Hlt.
  - (* infinite subtrahend *)
    destruct t as [ st | [ | ] | | st mt et ]; try discriminate.
    + (* t = -inf *)
      assert (Ea : a <> S754_infinity true).
      { intros ->. cbn in Hlt. destruct c; discriminate. }
      assert (Ea' : a' <> S754_infinity true).
      { intros ->. cbn [Zval cond_Zopp] in Hle.
        pose proof (Zval_bound a Ha) as Bnd.
        destruct a as [ sa | [ | ] | | sa ma ea ]; try congruence; cbn [Zval cond_Zopp] in Hle, Bnd.
        - lia.
        - lia.
        - pose proof (finite_value_bounds _ _ _ Ha). destruct sa; cbn [cond_Zopp] in Hle; lia. }
      assert (E : forall x, x <> S754_nan -> x <> S754_infinity true ->
                  SF64sub x (S754_infinity true) = S754_infinity false).
      { intros x N1 N2. destruct x as [ | [ | ] | | ]; try congruence; reflexivity. }
      rewrite E in Hlt |- * by assumption. exact Hlt.
    + (* t = +inf *)
      exfalso.
      destruct a as [ sa | [ | ] | | sa ma ea ]; try congruence;
        cbn in Hlt; destruct c as [ | [ | ] | | ]; discriminate.
    + exfalso. apply Nr. destruct a; reflexivity.
Qed.


End B64Facts.

(* ===================================================================== *)
(** * Facts about Python floats *)
(* ===================================================================== *)

Module FloatFacts.

Import B64 B64Facts.
Open Scope float_scope.

Lemma ltb_cases (x y : float) :
  (x <? y) = true <->
  Prim2SF x <> S754_nan /\ Prim2SF y <> S754_nan /\
  (Zval (Prim2SF x) < Zval (Prim2SF y))%Z.
Proof.
  rewrite ltb_spec. split.
  - intros H. destruct (SFltb_not_nan _ _ H) as [Nx Ny].
    rewrite SFltb_Zval in H by (apply Prim2SF_valid || assumption).
    apply Z.ltb_lt in H. auto.
  - intros (Nx & Ny & H).
    rewrite SFltb_Zval by (apply Prim2SF_valid || assumption).
    apply Z.ltb_lt. assumption.
Qed.

Lemma ltb_irrefl x : (x <? x) = false.
Proof.
  destruct (x <? x) eqn:E; [ | reflexivity ].
  apply ltb_cases in E. lia.
Qed.

Lemma ltb_asym x y : (x <? y) = true -> (y <? x) = false.
Proof.
  intros H. destruct (y <? x) eqn:E; [ | reflexivity ].
  apply ltb_cases in H, E. lia.
Qed.

Lemma ltb_trans x y z : (x <? y) = true -> (y <? z) = true -> (x <? z) = true.
Proof.
  intros H1 H2. apply ltb_cases in H1, H2. apply ltb_cases.
  intuition lia.
Qed.

Lemma eqb_infinity x : (x =? infinity) = true -> Prim2SF x = S754_infinity false.
Proof.
  rewrite eqb_spec. change (Prim2SF infinity) with (S754_infinity false).
  destruct (Prim2SF x) as [ | [ | ] | | [ | ] ]; cbn; congruence.
Qed.

(** Nothing is above [inf]. *)
Lemma ltb_infinity_l x y : (x =? infinity) = true -> (x <? y) = false.
Proof.
  intros H. rewrite ltb_spec, (eqb_infinity x H).
  destruct (Prim2SF y) as [ | [ | ] | | ]; reflexivity.
Qed.

(** A rounded difference above the improvement threshold means the
    subtrahend is the smaller number. *)
Lemma sub_gt_epsilon x y :
  (epsilon_to_compare_gap <? x - y) = true -> (y <? x) = true.
Proof.
  rewrite !ltb_spec, sub_spec.
  apply SFsub_gt_nonneg; try apply Prim2SF_valid.
  vm_compute. discriminate.
Qed.

(** Float subtraction is monotone in its first operand. *)
Lemma sub_mono_l c x x' t :
  (x <=? x') = true -> (c <? x - t) = true -> (c <? x' - t) = true.
Proof.
  rewrite leb_spec, !ltb_spec, !sub_spec.
  apply SFsub_mono_l; apply Prim2SF_valid.
Qed.

(** The divisor of the gap is positive whatever the objective is, a NaN
    included. *)
Lemma denominator_positive (o : float) :
  (0 <? Py.max 1e-10 (abs o)) = true /\ (Py.max 1e-10 (abs o) =? 0) = false.
Proof.
  unfold Py.max. destruct (1e-10 <? abs o) eqn:E.
  - rewrite ltb_spec in E. rewrite ltb_spec, eqb_spec.
    rewrite abs_spec in *.
    change (Prim2SF 0) with (S754_zero false).
    destruct (Prim2SF o) as [ | [ | ] | | [ | ] ]; cbn in *; try discriminate; auto.
  - split; reflexivity.
Qed.

End FloatFacts.

(* ===================================================================== *)
(** * The callback, branch by branch *)
(* ===================================================================== *)

(** Python's operators on a few inputs. *)

Example max_keeps_first_on_nan : Py.max 1e-10 nan = 1e-10.
Proof. reflexivity. Qed.

Example truediv_negative_zero :
  Py.truediv 1 neg_zero = Py.Raise Py.ZeroDivisionError.
Proof. reflexivity. Qed.

Example truediv_overflows_quietly : Py.truediv 1e308 1e-10 = Py.Ok infinity.
Proof. reflexivity. Qed.

Example mip_gap_one_tenth : mip_gap 10000 9000 = Py.Ok 0.1.
Proof. reflexivity. Qed.

Example mip_gap_nan_objective : mip_gap nan 9000 = Py.Ok nan.
Proof. reflexivity. Qed.

Example callback_other_phase :
  callback CallbackData_init 4 (mkModel 1 9000 10000) 0
  = Py.Ok (CallbackData_init, CONTINUE).
Proof. reflexivity. Qed.

(** The integer model of rounding agrees with the primitive subtraction
    on the difference the scenario hinges on. *)
Example rounded_difference :
  B64.Zval (Prim2SF (0.095 - 0.0949))
  = B64.Rz (B64.Zval (Prim2SF 0.095) - B64.Zval (Prim2SF 0.0949)).
Proof. vm_compute. reflexivity. Qed.

Lemma mip_gap_ok (o b : float) : mip_gap o b = Py.Ok (spec_gap o b).
Proof.
  unfold mip_gap, spec_gap, Py.truediv.
  destruct (o =? 0); [ reflexivity | ].
  destruct (FloatFacts.denominator_positive o) as [_ H]. rewrite H. reflexivity.
Qed.

(** Outside the MIP phase the callback returns at once. *)
Lemma callback_where (s : CallbackData) (w : Z) (m : Model) (now : float) :
  callback s w m now =
  if (w =? GRB_Callback_MIP)%Z then evaluate s m now else Py.Ok (s, CONTINUE).
Proof.
  unfold evaluate, callback.
  destruct (Z.eqb_spec w GRB_Callback_MIP) as [-> | ne].
  - reflexivity.
  - reflexivity.
Qed.

(** The body of the callback with the gap computed. *)
Lemma evaluate_eq (s : CallbackData) (m : Model) (now : float) :
  evaluate s m now =
  if (MIP_SOLCNT m =? 0)%Z then Py.Ok (s, CONTINUE)
  else if last_gap s =? infinity then
    Py.Ok ({| last_gap_change_time := Some now;
              last_gap := spec_gap (MIP_OBJBST m) (MIP_OBJBND m) |}, CONTINUE)
  else if epsilon_to_compare_gap
          <? last_gap s - spec_gap (MIP_OBJBST m) (MIP_OBJBND m) then
    Py.Ok ({| last_gap_change_time := Some now;
              last_gap := spec_gap (MIP_OBJBST m) (MIP_OBJBND m) |}, CONTINUE)
  else match last_gap_change_time s with
       | Some t =>
           if max_time_between_gap_updates <? now - t
           then Py.Ok (s, TERMINATE) else Py.Ok (s, CONTINUE)
       | None => Py.Raise Py.TypeError
       end.
Proof.
  unfold evaluate, callback. rewrite Z.eqb_refl. cbn [negb].
  destruct (MIP_SOLCNT m =? 0)%Z; [ reflexivity | ].
  rewrite mip_gap_ok. cbn [Py.bind].
  destruct (last_gap s =? infinity); [ reflexivity | ].
  destruct (epsilon_to_compare_gap <? _); [ reflexivity | ].
  destruct (last_gap_change_time s); reflexivity.
Qed.

Ltac evaluate_cases s m now :=
  rewrite (evaluate_eq s m now);
  destruct (Z.eqb_spec (MIP_SOLCNT m) 0) as [?Hsol | ?Hsol];
  [ | destruct (last_gap s =? infinity) eqn:?Hinf;
      [ | destruct (epsilon_to_compare_gap
                    <? last_gap s - spec_gap (MIP_OBJBST m) (MIP_OBJBND m)) eqn:?Himp;
          [ | destruct (last_gap_change_time s) as [?t | ] eqn:?Htime;
              [ destruct (max_time_between_gap_updates <? now - _) eqn:?Hstall | ] ] ] ].

(** ** The time is recorded before it is needed *)

Lemma evaluate_has_time s m now s' d :
  tracking_has_time s -> evaluate s m now = Py.Ok (s', d) -> tracking_has_time s'.
Proof.
  intros Hs. evaluate_cases s m now; intros H; inversion H; subst; try assumption.
  - intros _. discriminate.
  - intros _. discriminate.
Qed.

Lemma callback_has_time s w m now s' d :
  tracking_has_time s -> callback s w m now = Py.Ok (s', d) -> tracking_has_time s'.
Proof.
  intros Hs. rewrite callback_where. destruct (w =? GRB_Callback_MIP)%Z.
  - apply evaluate_has_time. assumption.
  - intros H. inversion H. subst. assumption.
Qed.

Lemma reachable_has_time s : reachable s -> tracking_has_time s.
Proof.
  induction 1 as [ | s w m now s' d _ IH Hcb ].
  - intros H. discriminate.
  - eapply callback_has_time; eassumption.
Qed.

(** No exception escapes the callback in a state that records its time. *)
Lemma evaluate_returns s m now :
  tracking_has_time s -> exists s' d, evaluate s m now = Py.Ok (s', d).
Proof.
  intros Hs. evaluate_cases s m now; try (eexists; eexists; reflexivity).
  exfalso. apply Hs; assumption.
Qed.

Lemma callback_returns s w m now :
  tracking_has_time s -> exists s' d, callback s w m now = Py.Ok (s', d).
Proof.
  intros Hs. rewrite callback_where. destruct (w =? GRB_Callback_MIP)%Z.
  - apply evaluate_returns. assumption.
  - eexists; eexists; reflexivity.
Qed.

Lemma run_reachable calls : forall s0 s ds,
  reachable s0 -> run s0 calls = Py.Ok (s, ds) -> reachable s.
Proof.
  induction calls as [ | c rest IH ]; intros s0 s ds H0 Hrun; cbn [run] in Hrun.
  - inversion Hrun. subst. assumption.
  - destruct (callback s0 (call_where c) (call_model c) (call_now c))
      as [ [s1 d1] | e ] eqn:Hcb; cbn [Py.bind fst snd] in Hrun; [ | discriminate ].
    destruct (run s1 rest) as [ [s2 ds2] | e ] eqn:Hrest;
      cbn [Py.bind fst snd] in Hrun; [ | discriminate ].
    inversion Hrun. subst. eapply IH; [ | eassumption ].
    eapply reachable_step; eassumption.
Qed.

(** ** How [last_gap] moves *)

Lemma not_above_refl a : not_above a a.
Proof. left. reflexivity. Qed.

Lemma not_above_trans a b c : not_above a b -> not_above b c -> not_above a c.
Proof.
  intros [-> | [Hba | Ha]] Hbc; try assumption.
  - destruct Hbc as [-> | [Hcb | Hb]].
    + right. left. assumption.
    + right. left. eapply FloatFacts.ltb_trans; eassumption.
    + rewrite (FloatFacts.ltb_infinity_l b a Hb) in Hba. discriminate.
  - right. right. assumption.
Qed.

Lemma not_above_ltb a b : not_above a b -> (a <? b) = false.
Proof.
  intros [-> | [Hba | Ha]].
  - apply FloatFacts.ltb_irrefl.
  - apply FloatFacts.ltb_asym. assumption.
  - apply FloatFacts.ltb_infinity_l. assumption.
Qed.

Lemma evaluate_not_above s m now s' d :
  evaluate s m now = Py.Ok (s', d) -> not_above (last_gap s) (last_gap s').
Proof.
  evaluate_cases s m now; intros H; inversion H; subst; cbn [last_gap];
    try apply not_above_refl.
  - right. right. assumption.
  - right. left. apply FloatFacts.sub_gt_epsilon. assumption.
Qed.

Lemma callback_not_above s w m now s' d :
  callback s w m now = Py.Ok (s', d) -> not_above (last_gap s) (last_gap s').
Proof.
  rewrite callback_where. destruct (w =? GRB_Callback_MIP)%Z.
  - apply evaluate_not_above.
  - intros H. inversion H. apply not_above_refl.
Qed.

Lemma states_not_above calls : forall s i j si sj,
  (i <= j)%nat ->
  nth_error (states s calls) i = Some si ->
  nth_error (states s calls) j = Some sj ->
  not_above (last_gap si) (last_gap sj).
Proof.
  induction calls as [ | c rest IH ]; intros s i j si sj Hij Hi Hj.
  - cbn [states] in Hi, Hj.
    destruct i as [ | [ | i ] ]; cbn in Hi; try discriminate.
    destruct j as [ | [ | j ] ]; cbn in Hj; try discriminate.
    inversion Hi; inversion Hj; subst. apply not_above_refl.
  - cbn [states] in Hi, Hj.
    destruct (callback s (call_where c) (call_model c) (call_now c))
      as [ [s1 d1] | e ] eqn:Hcb; cbn [fst] in Hi, Hj.
    + destruct j as [ | j ].
      * assert (i = 0)%nat as -> by lia. cbn in Hi, Hj.
        inversion Hi; inversion Hj; subst. apply not_above_refl.
      * cbn [nth_error] in Hj. destruct i as [ | i ].
        -- cbn in Hi. inversion Hi. subst si.
           apply not_above_trans with (b := last_gap s1).
           ++ eapply callback_not_above. eassumption.
           ++ apply (IH s1 0%nat j s1 sj); [ lia | | assumption ].
              destruct rest; reflexivity.
        -- cbn [nth_error] in Hi. apply (IH s1 i j si sj); [ lia | assumption | assumption ].
    + destruct i as [ | [ | i ] ]; cbn in Hi; try discriminate.
      destruct j as [ | [ | j ] ]; cbn in Hj; try discriminate.
      inversion Hi; inversion Hj; subst. apply not_above_refl.
Qed.

(** ** When the time of the last improvement is set *)

Lemma evaluate_time_set s m now s' d :
  evaluate s m now = Py.Ok (s', d) ->
  (last_gap_change_time s' <> None <->
   last_gap_change_time s <> None \/ MIP_SOLCNT m <> 0%Z).
Proof.
  evaluate_cases s m now; intros H; inversion H; subst;
    cbn [last_gap_change_time]; try rewrite Htime; intuition congruence.
Qed.

Lemma callback_time_set s w m now s' d :
  callback s w m now = Py.Ok (s', d) ->
  (last_gap_change_time s' <> None <->
   last_gap_change_time s <> None
   \/ (w = GRB_Callback_MIP /\ MIP_SOLCNT m <> 0%Z)).
Proof.
  rewrite callback_where. destruct (Z.eqb_spec w GRB_Callback_MIP) as [-> | ne].
  - intros H. rewrite (evaluate_time_set _ _ _ _ _ H). intuition.
  - intros H. inversion H. subst. intuition.
Qed.

Lemma run_time_set calls : forall s,
  tracking_has_time s ->
  exists s' ds,
    run s calls = Py.Ok (s', ds) /\
    (last_gap_change_time s' <> None <->
     last_gap_change_time s <> None
     \/ Exists (fun c => call_where c = GRB_Callback_MIP
                         /\ MIP_SOLCNT (call_model c) <> 0%Z) calls).
Proof.
  induction calls as [ | c rest IH ]; intros s Hs.
  - exists s, []. split; [ reflexivity | ].
    split; [ auto | ]. intros [H | H]; [ assumption | inversion H ].
  - destruct (callback_returns s (call_where c) (call_model c) (call_now c) Hs)
      as (s1 & d1 & Hcb).
    pose proof (callback_has_time _ _ _ _ _ _ Hs Hcb) as Hs1.
    destruct (IH s1 Hs1) as (s2 & ds & Hrun & Hiff).
    exists s2, (d1 :: ds). cbn [run]. rewrite Hcb. cbn [Py.bind fst snd].
    rewrite Hrun. cbn [Py.bind fst snd]. split; [ reflexivity | ].
    rewrite Hiff, (callback_time_set _ _ _ _ _ _ Hcb), Exists_cons. tauto.
Qed.

(* ===================================================================== *)
(** * Properties of the stall monitor *)
(* ===================================================================== *)

(** ** Snapshots without a solution *)

(** C4: on a snapshot with [solutionCount = 0], evaluate returns CONTINUE
    and leaves [last_gap] and [last_gap_change_time] as they are. *)
Theorem no_solution_continue (s : CallbackData) (m : Model) (now : float) :
  MIP_SOLCNT m = 0%Z -> evaluate s m now = Py.Ok (s, CONTINUE).
Proof.
  intros H. rewrite evaluate_eq, H. reflexivity.
Qed.

Lemma no_solution_continue_witness :
  MIP_SOLCNT (mkModel 0 0 0) = 0%Z /\
  evaluate CallbackData_init (mkModel 0 0 0) 7 = Py.Ok (CallbackData_init, CONTINUE).
Proof.
  split; [ reflexivity | apply (no_solution_continue CallbackData_init (mkModel 0 0 0) 7); reflexivity ].
Defined.

(** ** The gap *)

(** C2: the gap computation never divides by zero: on a zero objective
    the gap is [inf]; otherwise it is [|obj - bound| / max(1e-10, |obj|)],
    whose divisor is strictly positive; so no [ZeroDivisionError] escapes
    evaluate. *)
Theorem gap_never_divides_by_zero (s : CallbackData) (m : Model) (now : float) :
  mip_gap (MIP_OBJBST m) (MIP_OBJBND m)
  = Py.Ok (if MIP_OBJBST m =? 0 then infinity
           else abs (MIP_OBJBST m - MIP_OBJBND m) / Py.max 1e-10 (abs (MIP_OBJBST m)))
  /\ (0 <? Py.max 1e-10 (abs (MIP_OBJBST m))) = true
  /\ evaluate s m now <> Py.Raise Py.ZeroDivisionError.
Proof.
  split; [ apply mip_gap_ok | split ].
  - apply FloatFacts.denominator_positive.
  - evaluate_cases s m now; discriminate.
Qed.

(** ** The first solution *)

(** While [last_gap] holds [inf], a snapshot with a solution makes the
    callback store the gap and the time and continue. *)
Lemma first_solution_step (s : CallbackData) (m : Model) (now : float) :
  phase s = AWAITING_FIRST_SOLUTION -> MIP_SOLCNT m <> 0%Z ->
  evaluate s m now =
  Py.Ok ({| last_gap_change_time := Some now;
            last_gap := spec_gap (MIP_OBJBST m) (MIP_OBJBND m) |}, CONTINUE).
Proof.
  unfold phase. intros Hph Hsol. rewrite evaluate_eq.
  destruct (Z.eqb_spec (MIP_SOLCNT m) 0) as [E | _]; [ contradiction | ].
  destruct (last_gap s =? infinity); [ reflexivity | discriminate ].
Qed.

(** It then tracks, provided the gap it stored is not [inf] itself. *)
Lemma first_solution_tracks (s : CallbackData) (m : Model) (now : float) s' d :
  phase s = AWAITING_FIRST_SOLUTION -> MIP_SOLCNT m <> 0%Z ->
  (spec_gap (MIP_OBJBST m) (MIP_OBJBND m) =? infinity) = false ->
  evaluate s m now = Py.Ok (s', d) -> phase s' = TRACKING.
Proof.
  intros Hph Hsol Hgap. rewrite (first_solution_step s m now Hph Hsol).
  intros H. inversion H. subst. unfold phase. cbn [last_gap]. rewrite Hgap.
  reflexivity.
Qed.

(** With a zero objective the stored gap is [inf]: the callback takes the
    next snapshot for the first one again and restarts the clock. *)
Lemma zero_objective_restarts (s : CallbackData) (m : Model) (now : float) :
  phase s = AWAITING_FIRST_SOLUTION -> MIP_SOLCNT m <> 0%Z ->
  (MIP_OBJBST m =? 0) = true ->
  evaluate s m now =
  Py.Ok ({| last_gap_change_time := Some now; last_gap := infinity |}, CONTINUE).
Proof.
  intros Hph Hsol Hz. rewrite (first_solution_step s m now Hph Hsol).
  unfold spec_gap. rewrite Hz. reflexivity.
Qed.

(** C3, at the input where the callback departs from it: the first
    snapshot with a solution has objective 0.  The call continues and
    stores gap and time, but the gap is [inf], so the monitor is still
    AWAITING_FIRST_SOLUTION; a snapshot 100 seconds later, with no
    improvement, is taken for the first one again and the clock is reset
    instead of the stall being detected. *)
Theorem first_solution_zero_objective :
  evaluate CallbackData_init (mkModel 1 5 0) 0
  = Py.Ok ({| last_gap_change_time := Some 0; last_gap := infinity |}, CONTINUE)
  /\ phase {| last_gap_change_time := Some 0; last_gap := infinity |}
     = AWAITING_FIRST_SOLUTION
  /\ evaluate {| last_gap_change_time := Some 0; last_gap := infinity |}
       (mkModel 1 5 0) 100
     = Py.Ok ({| last_gap_change_time := Some 100; last_gap := infinity |}, CONTINUE).
Proof.
  repeat split; vm_compute; reflexivity.
Qed.

(** ** Tracking *)

(** C1: in the TRACKING state, on a snapshot with a solution: if
    [last_gap - gap] exceeds the threshold, the gap and the time are
    stored and the call continues; otherwise, if the time since the last
    improvement exceeds the maximal stall, the call terminates; otherwise
    it continues and the state is unchanged. *)
Theorem tracking_evaluate (s : CallbackData) (m : Model) (now : float) :
  reachable s -> phase s = TRACKING -> (0 < MIP_SOLCNT m)%Z ->
  exists gap t,
    mip_gap (MIP_OBJBST m) (MIP_OBJBND m) = Py.Ok gap /\
    last_gap_change_time s = Some t /\
    evaluate s m now =
    Py.Ok (if epsilon_to_compare_gap <? last_gap s - gap
           then ({| last_gap_change_time := Some now; last_gap := gap |}, CONTINUE)
           else if max_time_between_gap_updates <? now - t
                then (s, TERMINATE)
                else (s, CONTINUE)).
Proof.
  intros Hr Hph Hsol. unfold phase in Hph.
  destruct (last_gap s =? infinity) eqn:Hinf; [ discriminate | ].
  pose proof (reachable_has_time s Hr Hinf) as Ht.
  destruct (last_gap_change_time s) as [t | ] eqn:Htime; [ | congruence ].
  exists (spec_gap (MIP_OBJBST m) (MIP_OBJBND m)), t.
  split; [ apply mip_gap_ok | split; [ reflexivity | ] ].
  rewrite evaluate_eq, Hinf, Htime.
  destruct (Z.eqb_spec (MIP_SOLCNT m) 0) as [E | _]; [ lia | ].
  destruct (epsilon_to_compare_gap <? _); [ reflexivity | ].
  destruct (max_time_between_gap_updates <? _); reflexivity.
Qed.

Lemma tracking_evaluate_witness :
  exists gap t,
    mip_gap 10000 9050 = Py.Ok gap /\
    Some 5 = Some t /\
    evaluate {| last_gap_change_time := Some 5; last_gap := 0.095 |}
      snapshot_gap_0_095 21 =
    Py.Ok (if epsilon_to_compare_gap <? 0.095 - gap
           then ({| last_gap_change_time := Some 21; last_gap := gap |}, CONTINUE)
           else if max_time_between_gap_updates <? 21 - t
                then ({| last_gap_change_time := Some 5; last_gap := 0.095 |}, TERMINATE)
                else ({| last_gap_change_time := Some 5; last_gap := 0.095 |}, CONTINUE)).
Proof.
  apply (tracking_evaluate
           {| last_gap_change_time := Some 5; last_gap := 0.095 |}
           snapshot_gap_0_095 21).
  - apply (run_reachable
             [ evaluate_call snapshot_gap_0_10 0; evaluate_call snapshot_gap_0_095 5 ]
             CallbackData_init _ [CONTINUE; CONTINUE] reachable_init).
    vm_compute. reflexivity.
  - vm_compute. reflexivity.
  - reflexivity.
Defined.

(** C10: a call that decides TERMINATE leaves [last_gap] and
    [last_gap_change_time] as they are, and a later call with the same gap
    at a later time decides TERMINATE again. *)
Theorem terminate_keeps_state (s s' : CallbackData) (m : Model) (now : float) :
  evaluate s m now = Py.Ok (s', TERMINATE) ->
  s' = s /\
  forall (m' : Model) (now' : float),
    MIP_SOLCNT m' <> 0%Z ->
    mip_gap (MIP_OBJBST m') (MIP_OBJBND m') = mip_gap (MIP_OBJBST m) (MIP_OBJBND m) ->
    (now <=? now') = true ->
    evaluate s' m' now' = Py.Ok (s', TERMINATE).
Proof.
  evaluate_cases s m now; intros H; inversion H; subst s'.
  split; [ reflexivity | ].
  intros m' now' Hsol' Hgap Hlater.
  rewrite !mip_gap_ok in Hgap. inversion Hgap as [Hg].
  rewrite evaluate_eq, Hg, Hinf, Himp, Htime.
  destruct (Z.eqb_spec (MIP_SOLCNT m') 0) as [E | _]; [ contradiction | ].
  rewrite (FloatFacts.sub_mono_l _ now now' t Hlater Hstall). reflexivity.
Qed.

Lemma terminate_keeps_state_witness :
  evaluate {| last_gap_change_time := Some 5; last_gap := 0.095 |}
    snapshot_gap_0_095 21
  = Py.Ok ({| last_gap_change_time := Some 5; last_gap := 0.095 |}, TERMINATE)
  /\ evaluate {| last_gap_change_time := Some 5; last_gap := 0.095 |}
       snapshot_gap_0_095 30
     = Py.Ok ({| last_gap_change_time := Some 5; last_gap := 0.095 |}, TERMINATE).
Proof.
  assert (H : evaluate {| last_gap_change_time := Some 5; last_gap := 0.095 |}
                snapshot_gap_0_095 21
              = Py.Ok ({| last_gap_change_time := Some 5; last_gap := 0.095 |}, TERMINATE))
    by (vm_compute; reflexivity).
  split; [ exact H | ].
  apply (proj2 (terminate_keeps_state _ _ _ _ H) snapshot_gap_0_095 30).
  - discriminate.
  - reflexivity.
  - vm_compute. reflexivity.
Defined.

(** In the TRACKING state, with a fixed gap that is no improvement, every
    call made before the maximal stall has elapsed returns CONTINUE and
    leaves the state unchanged, and the next call, made once it has
    elapsed, returns TERMINATE: over these calls TERMINATE is returned
    exactly once. *)
Theorem stalled_calls (s : CallbackData) (m : Model) (t0 : float)
    (before : list float) (now : float) :
  phase s = TRACKING ->
  last_gap_change_time s = Some t0 ->
  MIP_SOLCNT m <> 0%Z ->
  (forall gap, mip_gap (MIP_OBJBST m) (MIP_OBJBND m) = Py.Ok gap ->
               (epsilon_to_compare_gap <? last_gap s - gap) = false) ->
  Forall (fun t => (max_time_between_gap_updates <? t - t0) = false) before ->
  (max_time_between_gap_updates <? now - t0) = true ->
  Forall (fun t => evaluate s m t = Py.Ok (s, CONTINUE)) before
  /\ run s (map (evaluate_call m) (before ++ [now]))
     = Py.Ok (s, repeat CONTINUE (length before) ++ [TERMINATE])
  /\ count_terminate (repeat CONTINUE (length before) ++ [TERMINATE]) = 1%nat.
Proof.
  unfold phase. intros Hph Htime Hsol Hgap Hbefore Hnow.
  destruct (last_gap s =? infinity) eqn:Hinf; [ discriminate | ].
  specialize (Hgap _ (mip_gap_ok _ _)).
  assert (Hcall : forall t,
             evaluate s m t =
             if max_time_between_gap_updates <? t - t0
             then Py.Ok (s, TERMINATE) else Py.Ok (s, CONTINUE)).
  { intros t. rewrite evaluate_eq, Hinf, Hgap, Htime.
    destruct (Z.eqb_spec (MIP_SOLCNT m) 0) as [E | _]; [ contradiction | ].
    reflexivity. }
  split; [ | split ].
  - eapply Forall_impl; [ | exact Hbefore ].
    intros t Ht. cbn beta in Ht. rewrite Hcall, Ht. reflexivity.
  - induction Hbefore as [ | t rest Ht _ IH ].
    + cbn [app map run evaluate_call call_where call_model call_now].
      fold (evaluate s m now). rewrite Hcall, Hnow. reflexivity.
    + cbn [app map run evaluate_call call_where call_model call_now length repeat].
      fold (evaluate s m t). rewrite Hcall, Ht. cbn [Py.bind fst snd].
      rewrite IH. reflexivity.
  - unfold count_terminate. rewrite filter_app, length_app.
    assert (Hrep : forall n, filter is_terminate (repeat CONTINUE n) = []).
    { induction n as [ | n IHn ]; [ reflexivity | exact IHn ]. }
    rewrite Hrep. reflexivity.
Qed.

Lemma stalled_calls_witness :
  Forall (fun t => evaluate {| last_gap_change_time := Some 5; last_gap := 0.095 |}
                     snapshot_gap_0_095 t
                   = Py.Ok ({| last_gap_change_time := Some 5; last_gap := 0.095 |}, CONTINUE))
         [10; 20]
  /\ run {| last_gap_change_time := Some 5; last_gap := 0.095 |}
       (map (evaluate_call snapshot_gap_0_095) ([10; 20] ++ [21]))
     = Py.Ok ({| last_gap_change_time := Some 5; last_gap := 0.095 |},
              repeat CONTINUE (length [10; 20]) ++ [TERMINATE])
  /\ count_terminate (repeat CONTINUE (length [10; 20]) ++ [TERMINATE]) = 1%nat.
Proof.
  apply (stalled_calls {| last_gap_change_time := Some 5; last_gap := 0.095 |}
           snapshot_gap_0_095 5 [10; 20] 21).
  - vm_compute. reflexivity.
  - reflexivity.
  - discriminate.
  - intros gap H. vm_compute in H. inversion H. vm_compute. reflexivity.
  - repeat constructor.
  - vm_compute. reflexivity.
Defined.

(** C6, at the input where the callback departs from it: the fixed gap
    is [inf] (objective 0).  After the first solution at t = 0 the state
    is [(0, inf)], which a run reaches, and the gap [inf] is no
    improvement on it.  Yet the call at t = 10, before the stall has
    elapsed, does not leave the state unchanged: it restarts the clock.
    And once the 15 seconds have elapsed (t = 100, t = 1000) no call
    returns TERMINATE: each one restarts the clock again. *)
Theorem stalled_calls_infinite_gap :
  run CallbackData_init [ evaluate_call (mkModel 1 5 0) 0 ]
  = Py.Ok ({| last_gap_change_time := Some 0; last_gap := infinity |}, [CONTINUE])
  /\ mip_gap 0 5 = Py.Ok infinity
  /\ (epsilon_to_compare_gap <? infinity - infinity) = false
  /\ (max_time_between_gap_updates <? 10 - 0) = false
  /\ evaluate {| last_gap_change_time := Some 0; last_gap := infinity |}
       (mkModel 1 5 0) 10
     = Py.Ok ({| last_gap_change_time := Some 10; last_gap := infinity |}, CONTINUE)
  /\ (max_time_between_gap_updates <? 100 - 0) = true
  /\ run {| last_gap_change_time := Some 0; last_gap := infinity |}
       (map (evaluate_call (mkModel 1 5 0)) [10; 100; 1000])
     = Py.Ok ({| last_gap_change_time := Some 1000; last_gap := infinity |},
              [CONTINUE; CONTINUE; CONTINUE])
  /\ count_terminate [CONTINUE; CONTINUE; CONTINUE] = 0%nat.
Proof.
  repeat split; vm_compute; reflexivity.
Qed.

(** ** Invariants of a run *)

(** One call changes [last_gap] only on the first solution or on an
    improvement of more than the threshold. *)
Lemma last_gap_update (s : CallbackData) (w : Z) (m : Model) (now : float) s' d :
  callback s w m now = Py.Ok (s', d) ->
  last_gap s' = last_gap s
  \/ (last_gap s =? infinity) = true
  \/ (epsilon_to_compare_gap <? last_gap s - last_gap s') = true.
Proof.
  rewrite callback_where. destruct (w =? GRB_Callback_MIP)%Z.
  - evaluate_cases s m now; intros H; inversion H; subst; cbn [last_gap]; auto.
  - intros H. inversion H. auto.
Qed.

(** C7: along the states of a run, [last_gap] never increases: a later
    value is never above an earlier one; it is the same value, or a
    strictly smaller one, or the earlier one was the initial [inf]. *)
Theorem last_gap_never_increases (s : CallbackData) (calls : list Call)
    (i j : nat) (si sj : CallbackData) :
  (i <= j)%nat ->
  nth_error (states s calls) i = Some si ->
  nth_error (states s calls) j = Some sj ->
  (last_gap si <? last_gap sj) = false
  /\ not_above (last_gap si) (last_gap sj).
Proof.
  intros Hij Hi Hj.
  pose proof (states_not_above calls s i j si sj Hij Hi Hj) as H.
  split; [ apply not_above_ltb | ]; assumption.
Qed.

Lemma last_gap_never_increases_witness :
  (0.1 <? 0.0949) = false /\ not_above 0.1 0.0949.
Proof.
  apply (last_gap_never_increases CallbackData_init scenario_calls 1 3
           {| last_gap_change_time := Some 0; last_gap := 0.1 |}
           {| last_gap_change_time := Some 20; last_gap := 0.0949 |}).
  - lia.
  - vm_compute. reflexivity.
  - vm_compute. reflexivity.
Defined.

(** C8: at every point of a run, the time of the last improvement is set
    if and only if evaluate has observed a snapshot with
    [solutionCount > 0]; the solver reports counts that are not negative. *)
Theorem time_set_iff_solution_observed (calls : list Call) :
  Forall (fun c => (0 <= MIP_SOLCNT (call_model c))%Z) calls ->
  exists s ds,
    run CallbackData_init calls = Py.Ok (s, ds) /\
    (last_gap_change_time s <> None <-> existsb observes_solution calls = true).
Proof.
  intros Hnonneg.
  assert (H0 : tracking_has_time CallbackData_init) by (intros H; discriminate).
  destruct (run_time_set calls CallbackData_init H0) as (s & ds & Hrun & Hiff).
  exists s, ds. split; [ assumption | ].
  rewrite Hiff, existsb_exists, Exists_exists. cbn [CallbackData_init last_gap_change_time].
  rewrite Forall_forall in Hnonneg. unfold observes_solution.
  split.
  - intros [H | (c & Hin & Hw & Hsol)]; [ congruence | ].
    exists c. split; [ assumption | ].
    apply andb_true_iff. split; [ apply Z.eqb_eq; assumption | ].
    apply Z.ltb_lt. specialize (Hnonneg c Hin). cbn beta in Hnonneg. lia.
  - intros (c & Hin & Hobs). right. exists c. split; [ assumption | ].
    apply andb_true_iff in Hobs. destruct Hobs as [Hw Hsol].
    apply Z.eqb_eq in Hw. apply Z.ltb_lt in Hsol. split; [ assumption | lia ].
Qed.

Lemma time_set_iff_solution_observed_witness :
  exists s ds,
    run CallbackData_init scenario_calls = Py.Ok (s, ds) /\
    (last_gap_change_time s <> None <-> existsb observes_solution scenario_calls = true).
Proof.
  apply (time_set_iff_solution_observed scenario_calls).
  repeat constructor; cbn; lia.
Defined.

(** ** Invalid snapshots *)

Lemma invalid_snapshot_solcnt (m : Model) :
  invalid_snapshot m = true -> MIP_SOLCNT m <> 0%Z.
Proof.
  unfold invalid_snapshot. intros H. apply orb_true_iff in H.
  destruct H as [H | H].
  - apply Z.ltb_lt in H. lia.
  - apply andb_true_iff in H. destruct H as [H _]. apply Z.ltb_lt in H. lia.
Qed.

(** C9 fails on the callback: a snapshot with a negative solution count
    is not rejected; the call returns normally and has updated the
    state. *)
Lemma invalid_snapshot_not_rejected :
  invalid_snapshot (mkModel (-1) 9000 10000) = true
  /\ evaluate CallbackData_init (mkModel (-1) 9000 10000) 0
     = Py.Ok ({| last_gap_change_time := Some 0; last_gap := 0.1 |}, CONTINUE)
  /\ {| last_gap_change_time := Some 0; last_gap := 0.1 |} <> CallbackData_init.
Proof.
  repeat split; try (vm_compute; reflexivity). discriminate.
Qed.

(** C9, amended: the callback validates nothing.  On an invalid snapshot
    (negative solution count, or non-finite objective or bound while a
    solution exists) a call made during a run raises nothing and returns a
    decision, and it treats the snapshot exactly as the snapshot with one
    solution and the same objective and bound. *)
Theorem invalid_snapshot_processed (s : CallbackData) (m : Model) (now : float) :
  reachable s -> invalid_snapshot m = true ->
  (exists s' d, evaluate s m now = Py.Ok (s', d))
  /\ evaluate s m now = evaluate s (mkModel 1 (MIP_OBJBND m) (MIP_OBJBST m)) now.
Proof.
  intros Hr Hinv. split.
  - apply evaluate_returns, reachable_has_time. assumption.
  - pose proof (invalid_snapshot_solcnt m Hinv) as Hsol.
    rewrite !evaluate_eq. cbn [MIP_SOLCNT MIP_OBJBND MIP_OBJBST].
    destruct (Z.eqb_spec (MIP_SOLCNT m) 0) as [E | _]; [ contradiction | ].
    reflexivity.
Qed.

Lemma invalid_snapshot_processed_witness :
  (exists s' d, evaluate CallbackData_init (mkModel (-1) 9000 10000) 0 = Py.Ok (s', d))
  /\ evaluate CallbackData_init (mkModel (-1) 9000 10000) 0
     = evaluate CallbackData_init (mkModel 1 9000 10000) 0.
Proof.
  apply (invalid_snapshot_processed CallbackData_init (mkModel (-1) 9000 10000) 0).
  - apply reachable_init.
  - vm_compute. reflexivity.
Defined.

(** ** The scenario of the specification *)

(** C5 fails on the callback: after gap 0.10 at t = 0 and gap 0.095 at
    t = 5, the call with gap 0.0949 at t = 20 does not decide TERMINATE. *)
Lemma scenario_does_not_terminate :
  run CallbackData_init
    [ evaluate_call snapshot_gap_0_10 0; evaluate_call snapshot_gap_0_095 5 ]
  = Py.Ok ({| last_gap_change_time := Some 5; last_gap := 0.095 |},
           [CONTINUE; CONTINUE])
  /\ ~ (exists s',
          evaluate {| last_gap_change_time := Some 5; last_gap := 0.095 |}
            snapshot_gap_0_0949 20 = Py.Ok (s', TERMINATE)).
Proof.
  split; [ vm_compute; reflexivity | ].
  intros [s' H]. vm_compute in H. discriminate.
Qed.

(** C5, amended: the three snapshots have gaps 0.10, 0.095 and 0.0949.
    The calls at t = 0 and t = 5 continue, the second recording an
    improvement at t = 5.  The call at t = 20 continues too: in binary64
    [0.095 - 0.0949] is above [1e-4], so it records an improvement at
    t = 20.  Even with the gap unchanged at 0.095 it would continue, the
    stall test being strict ([20 - 5 = 15] is not above 15); TERMINATE
    comes once more than 15 seconds have passed, as at t = 20.5. *)
Theorem scenario_continues :
  mip_gap 10000 9000 = Py.Ok 0.1
  /\ mip_gap 10000 9050 = Py.Ok 0.095
  /\ mip_gap 10000 9051 = Py.Ok 0.0949
  /\ run CallbackData_init scenario_calls
     = Py.Ok ({| last_gap_change_time := Some 20; last_gap := 0.0949 |},
              [CONTINUE; CONTINUE; CONTINUE])
  /\ (epsilon_to_compare_gap <? 0.095 - 0.0949) = true
  /\ run CallbackData_init
       [ evaluate_call snapshot_gap_0_10 0; evaluate_call snapshot_gap_0_095 5;
         evaluate_call snapshot_gap_0_095 20; evaluate_call snapshot_gap_0_095 20.5 ]
     = Py.Ok ({| last_gap_change_time := Some 5; last_gap := 0.095 |},
              [CONTINUE; CONTINUE; CONTINUE; TERMINATE]).
Proof.
  repeat split; vm_compute; reflexivity.
Qed.

(* ===================================================================== *)
(** * Further properties of the callback *)
(* ===================================================================== *)

(** ** More facts about Python floats *)

Module FloatEdge.

Import B64 B64Facts.
Open Scope float_scope.

(** Whatever is rounded, the result carries the sign it was given. *)
Lemma binary_round_aux_sign s m e l :
  let r := binary_round_aux prec emax s m e l in
  r = S754_nan \/ r = S754_zero s \/ r = S754_infinity s
  \/ exists q e', r = S754_finite s q e'.
Proof.
  unfold binary_round_aux.
  destruct (shr_fexp prec emax m e l) as [mrs' e'].
  destruct (shr_fexp prec emax _ e' loc_Exact) as [mrs'' e''].
  destruct (shr_m mrs'') as [ | q | q ]; [ auto | | auto ].
  destruct (e'' <=? emax - prec)%Z; [ | auto ].
  right. right. right. exists q, e''. reflexivity.
Qed.

(** The quotient of an absolute value by a positive number is not below
    zero. *)
Lemma div_abs_not_negative (x d : float) :
  (0 <? d) = true -> (abs x / d <? 0) = false.
Proof.
  rewrite !ltb_spec, div_spec, abs_spec.
  change (Prim2SF 0) with (S754_zero false).
  destruct (Prim2SF d) as [ sd | [ | ] | | [ | ] md ed ]; cbn [SFltb SFcompare];
    try discriminate; intros _;
    destruct (Prim2SF x) as [ sx | sx | | sx mx ex ]; try reflexivity.
  unfold SF64div. cbn [SFabs SFdiv xorb].
  destruct (SFdiv_core_binary prec emax (Z.pos mx) ex (Z.pos md) ed) as [[mz ez] lz].
  destruct (binary_round_aux_sign false mz ez lz) as [E | [E | [E | (q & e' & E)]]];
    rewrite E; reflexivity.
Qed.

Lemma leb_not_gt x y : (x <=? y) = true -> (y <? x) = false.
Proof.
  intros Hle. destruct (y <? x) eqn:Hlt; [ | reflexivity ].
  apply FloatFacts.ltb_cases in Hlt. destruct Hlt as (Ny & Nx & Hlt).
  rewrite leb_spec, SFleb_Zval in Hle by (apply Prim2SF_valid || assumption).
  apply Z.leb_le in Hle. lia.
Qed.

Lemma SFcompare_refl v : v <> S754_nan -> SFcompare v v = Some Eq.
Proof.
  destruct v as [ [ | ] | [ | ] | | [ | ] m e ]; cbn [SFcompare];
    try congruence; intros _.
  - rewrite Z.compare_refl, Pos.compare_cont_refl. reflexivity.
  - rewrite Z.compare_refl, Pos.compare_cont_refl. reflexivity.
Qed.

Lemma is_nan_spec x : is_nan x = true -> Prim2SF x = S754_nan.
Proof.
  unfold is_nan. rewrite eqb_spec. unfold SFeqb. intros H.
  destruct (Prim2SF x) eqn:E; try reflexivity;
    rewrite SFcompare_refl in H by discriminate; discriminate.
Qed.

Lemma nan_not_infinity x : is_nan x = true -> (x =? infinity) = false.
Proof.
  intros H. rewrite eqb_spec, (is_nan_spec x H). reflexivity.
Qed.

Lemma nan_sub_not_above c x y : is_nan x = true -> (c <? x - y) = false.
Proof.
  intros H. rewrite ltb_spec, sub_spec, (is_nan_spec x H).
  unfold SF64sub. cbn [SFsub]. apply SFltb_nan_r.
Qed.

End FloatEdge.

(** ** Steps *)

(** One call either leaves the state as it is, or reads the gap and
    stores it together with the clock. *)
Lemma callback_step (s : CallbackData) (w : Z) (m : Model) (now : float) s' d :
  callback s w m now = Py.Ok (s', d) ->
  s' = s
  \/ (w = GRB_Callback_MIP /\ MIP_SOLCNT m <> 0%Z /\ d = CONTINUE /\
      s' = {| last_gap_change_time := Some now;
              last_gap := spec_gap (MIP_OBJBST m) (MIP_OBJBND m) |}).
Proof.
  rewrite callback_where. destruct (Z.eqb_spec w GRB_Callback_MIP) as [-> | ne].
  - evaluate_cases s m now; intros H; inversion H; subst; auto.
  - intros H. inversion H. auto.
Qed.

(** A call whose gap is not read returns CONTINUE and changes nothing. *)
Lemma callback_not_read (s : CallbackData) (c : Call) :
  reads_gap c = false ->
  callback s (call_where c) (call_model c) (call_now c) = Py.Ok (s, CONTINUE).
Proof.
  unfold reads_gap. intros H. rewrite callback_where.
  destruct (call_where c =? GRB_Callback_MIP)%Z; [ | reflexivity ].
  cbn [andb] in H. apply negb_false_iff in H. rewrite evaluate_eq, H. reflexivity.
Qed.

Lemma callback_tracking (s : CallbackData) (w : Z) (m : Model) (now : float) s' d :
  phase s = TRACKING -> callback s w m now = Py.Ok (s', d) -> phase s' = TRACKING.
Proof.
  unfold phase. intros Hph. rewrite callback_where.
  destruct (w =? GRB_Callback_MIP)%Z.
  - evaluate_cases s m now; intros H; inversion H; subst; cbn [last_gap].
    + assumption.
    + cbn in Hph. discriminate.
    + apply FloatFacts.sub_gt_epsilon in Himp.
      destruct (spec_gap (MIP_OBJBST m) (MIP_OBJBND m) =? infinity) eqn:E;
        [ | reflexivity ].
      rewrite (FloatFacts.ltb_infinity_l _ (last_gap s) E) in Himp. discriminate.
    + rewrite Hinf. reflexivity.
    + rewrite Hinf. reflexivity.
  - intros H. inversion H. subst. assumption.
Qed.

Lemma spec_gap_not_negative (o b : float) : (spec_gap o b <? 0) = false.
Proof.
  unfold spec_gap. destruct (o =? 0); [ reflexivity | ].
  apply FloatEdge.div_abs_not_negative, FloatFacts.denominator_positive.
Qed.

(** What holds of a state and is kept by every call holds of all later
    states of a run. *)
Lemma states_from (P : CallbackData -> Prop) :
  (forall s w m now s' d, P s -> callback s w m now = Py.Ok (s', d) -> P s') ->
  forall calls s j sj,
    P s -> nth_error (states s calls) j = Some sj -> P sj.
Proof.
  intros Hstep. induction calls as [ | c rest IH ]; intros s j sj Hs Hj;
    cbn [states] in Hj.
  - destruct j as [ | [ | j ] ]; cbn in Hj; try discriminate.
    inversion Hj. subst. assumption.
  - destruct j as [ | j ]; [ cbn in Hj; inversion Hj; subst; assumption | ].
    cbn [nth_error] in Hj.
    destruct (callback s (call_where c) (call_model c) (call_now c))
      as [ [s1 d1] | e ] eqn:Hcb; cbn [fst] in Hj.
    + apply (IH s1 j sj); [ | assumption ]. eapply Hstep; eassumption.
    + destruct j; discriminate.
Qed.

Lemma states_preserve (P : CallbackData -> Prop) :
  (forall s w m now s' d, P s -> callback s w m now = Py.Ok (s', d) -> P s') ->
  forall calls s i j si sj,
    (i <= j)%nat ->
    nth_error (states s calls) i = Some si ->
    nth_error (states s calls) j = Some sj ->
    P si -> P sj.
Proof.
  intros Hstep. induction calls as [ | c rest IH ]; intros s i j si sj Hij Hi Hj Hsi.
  - cbn [states] in Hi, Hj.
    destruct i as [ | [ | i ] ]; cbn in Hi; try discriminate.
    destruct j as [ | [ | j ] ]; cbn in Hj; try discriminate.
    inversion Hi; inversion Hj; subst. assumption.
  - destruct i as [ | i ].
    + cbn in Hi. inversion Hi. subst si.
      apply (states_from P Hstep (c :: rest) s j sj); assumption.
    + destruct j as [ | j ]; [ lia | ].
      cbn [states nth_error] in Hi, Hj.
      destruct (callback s (call_where c) (call_model c) (call_now c))
        as [ [s1 d1] | e ] eqn:Hcb; cbn [fst] in Hi, Hj.
      * apply (IH s1 i j si sj); try assumption. lia.
      * destruct i; discriminate.
Qed.

Lemma run_cons (s : CallbackData) (c : Call) (rest : list Call) s1 d1 :
  callback s (call_where c) (call_model c) (call_now c) = Py.Ok (s1, d1) ->
  run s (c :: rest) = (r' <- run s1 rest ;; Py.Ok (fst r', d1 :: snd r')).
Proof. intros H. cbn [run]. rewrite H. reflexivity. Qed.

Lemma run_returns calls : forall s,
  tracking_has_time s ->
  exists s' ds, run s calls = Py.Ok (s', ds) /\ length ds = length calls.
Proof.
  induction calls as [ | c rest IH ]; intros s Hs.
  - exists s, []. split; reflexivity.
  - destruct (callback_returns s (call_where c) (call_model c) (call_now c) Hs)
      as (s1 & d1 & Hcb).
    destruct (IH s1 (callback_has_time _ _ _ _ _ _ Hs Hcb)) as (s2 & ds & Hrun & Hlen).
    exists s2, (d1 :: ds). rewrite (run_cons _ _ _ _ _ Hcb), Hrun.
    split; [ reflexivity | cbn [length]; congruence ].
Qed.

Lemma run_inv calls : forall s s' ds,
  run s calls = Py.Ok (s', ds) ->
  match calls with
  | [] => s' = s /\ ds = []
  | c :: rest =>
      exists s1 d1 ds1,
        callback s (call_where c) (call_model c) (call_now c) = Py.Ok (s1, d1)
        /\ run s1 rest = Py.Ok (s', ds1) /\ ds = d1 :: ds1
  end.
Proof.
  destruct calls as [ | c rest ]; intros s s' ds H; cbn [run] in H.
  - inversion H. auto.
  - destruct (callback s (call_where c) (call_model c) (call_now c))
      as [ [s1 d1] | e ] eqn:Hcb; cbn [Py.bind fst snd] in H; [ | discriminate ].
    destruct (run s1 rest) as [ [s2 ds2] | e ] eqn:Hrest;
      cbn [Py.bind fst snd] in H; [ | discriminate ].
    inversion H. subst. exists s1, d1, ds2. auto.
Qed.

(** ** Runs *)

(** X1: a run started on a fresh [CallbackData()] never raises, whatever
    the solver reports (negative counts, NaN and infinite figures
    included): every call returns a decision.  In particular
    [time.time() - None] is never evaluated. *)
Theorem run_never_raises (calls : list Call) :
  exists s ds,
    run CallbackData_init calls = Py.Ok (s, ds) /\ length ds = length calls.
Proof.
  apply run_returns. intros H. discriminate.
Qed.

(** The [TypeError] is a real path of the code: it is taken in a state
    that has a gap but no time, which no run produces. *)
Example type_error_without_time :
  evaluate {| last_gap_change_time := None; last_gap := 0.05 |}
    (mkModel 1 9000 10000) 0 = Py.Raise Py.TypeError.
Proof. reflexivity. Qed.

(** X2: TRACKING is terminal: once [last_gap] has left [inf] in a run, no
    later call brings it back to [inf]. *)
Theorem tracking_is_terminal (s : CallbackData) (calls : list Call)
    (i j : nat) (si sj : CallbackData) :
  (i <= j)%nat ->
  nth_error (states s calls) i = Some si ->
  nth_error (states s calls) j = Some sj ->
  phase si = TRACKING -> phase sj = TRACKING.
Proof.
  apply (states_preserve (fun s => phase s = TRACKING)).
  intros s0 w m now s' d. apply callback_tracking.
Qed.

Lemma tracking_is_terminal_witness :
  phase {| last_gap_change_time := Some 20; last_gap := 0.0949 |} = TRACKING.
Proof.
  apply (tracking_is_terminal CallbackData_init scenario_calls 1 3
           {| last_gap_change_time := Some 0; last_gap := 0.1 |}
           {| last_gap_change_time := Some 20; last_gap := 0.0949 |}).
  - repeat constructor.
  - reflexivity.
  - reflexivity.
  - reflexivity.
Defined.



(** X4: the gap the callback computes is never negative, whatever the
    objective and the bound are: it is a number that is not below zero,
    or [inf], or NaN. *)
Theorem gap_never_negative (best_obj best_bound gap : float) :
  mip_gap best_obj best_bound = Py.Ok gap -> (gap <? 0) = false.
Proof.
  rewrite mip_gap_ok. intros H. inversion H. apply spec_gap_not_negative.
Qed.

Lemma gap_never_negative_witness : (0.1 <? 0) = false.
Proof.
  apply (gap_never_negative 10000 9000 0.1). reflexivity.
Defined.

(** X5: in every state of a run, the stored gap is not negative. *)
Theorem stored_gap_never_negative (s : CallbackData) :
  reachable s -> (last_gap s <? 0) = false.
Proof.
  induction 1 as [ | s w m now s' d _ IH Hcb ].
  - reflexivity.
  - destruct (callback_step _ _ _ _ _ _ Hcb) as [-> | (_ & _ & _ & ->)].
    + assumption.
    + apply spec_gap_not_negative.
Qed.

Lemma stored_gap_never_negative_witness :
  (last_gap {| last_gap_change_time := Some 0; last_gap := 0.1 |} <? 0) = false.
Proof.
  apply (stored_gap_never_negative {| last_gap_change_time := Some 0; last_gap := 0.1 |}).
  apply (reachable_step CallbackData_init GRB_Callback_MIP snapshot_gap_0_10 0 _ CONTINUE
           reachable_init).
  reflexivity.
Defined.

(** X6: the two fields go together: after a run, [cbdata] is either still
    fresh or holds the clock and the gap of one and the same call of the
    run, a call whose gap was read. *)
Theorem state_comes_from_one_call (calls : list Call) (s : CallbackData)
    (ds : list Decision) :
  run CallbackData_init calls = Py.Ok (s, ds) ->
  s = CallbackData_init
  \/ exists c,
       In c calls /\ reads_gap c = true
       /\ last_gap_change_time s = Some (call_now c)
       /\ mip_gap (MIP_OBJBST (call_model c)) (MIP_OBJBND (call_model c))
          = Py.Ok (last_gap s).
Proof.
  assert (Hgen : forall calls s0 s ds,
             run s0 calls = Py.Ok (s, ds) ->
             s = s0
             \/ exists c,
                  In c calls /\ reads_gap c = true
                  /\ last_gap_change_time s = Some (call_now c)
                  /\ mip_gap (MIP_OBJBST (call_model c)) (MIP_OBJBND (call_model c))
                     = Py.Ok (last_gap s)).
  { clear. induction calls as [ | c rest IH ]; intros s0 s ds Hrun.
    - apply run_inv in Hrun. left. apply Hrun.
    - apply run_inv in Hrun. destruct Hrun as (s1 & d1 & ds1 & Hcb & Hrest & _).
      destruct (IH s1 s ds1 Hrest) as [-> | (c' & Hin & Hread & Ht & Hg)].
      + destruct (callback_step _ _ _ _ _ _ Hcb) as [-> | (Hw & Hsol & _ & ->)].
        * left. reflexivity.
        * right. exists c. split; [ left; reflexivity | ].
          split; [ | split; [ reflexivity | apply mip_gap_ok ] ].
          unfold reads_gap. rewrite Hw, Z.eqb_refl.
          apply Z.eqb_neq in Hsol. rewrite Hsol. reflexivity.
      + right. exists c'. split; [ right; assumption | auto ]. }
  apply Hgen.
Qed.

Lemma state_comes_from_one_call_witness :
  {| last_gap_change_time := Some 20; last_gap := 0.0949 |} = CallbackData_init
  \/ exists c,
       In c scenario_calls /\ reads_gap c = true
       /\ Some 20 = Some (call_now c)
       /\ mip_gap (MIP_OBJBST (call_model c)) (MIP_OBJBND (call_model c))
          = Py.Ok 0.0949.
Proof.
  apply (state_comes_from_one_call scenario_calls
           {| last_gap_change_time := Some 20; last_gap := 0.0949 |}
           [CONTINUE; CONTINUE; CONTINUE]).
  vm_compute. reflexivity.
Defined.

(** X7: a run in which no call is made more than 15 seconds after another
    one never asks the solver to stop. *)
Theorem close_calls_never_terminate (calls : list Call) :
  (forall c1 c2, In c1 calls -> In c2 calls ->
                 (max_time_between_gap_updates <? call_now c2 - call_now c1) = false) ->
  exists s,
    run CallbackData_init calls = Py.Ok (s, repeat CONTINUE (length calls)).
Proof.
  assert (Hgen : forall calls s,
             tracking_has_time s ->
             (forall t c, last_gap_change_time s = Some t -> In c calls ->
                          (max_time_between_gap_updates <? call_now c - t) = false) ->
             (forall c1 c2, In c1 calls -> In c2 calls ->
                 (max_time_between_gap_updates <? call_now c2 - call_now c1) = false) ->
             exists s', run s calls = Py.Ok (s', repeat CONTINUE (length calls))).
  { clear. induction calls as [ | c rest IH ]; intros s Hs Hold Hpair.
    - exists s. reflexivity.
    - destruct (callback_returns s (call_where c) (call_model c) (call_now c) Hs)
        as (s1 & d1 & Hcb).
      assert (Hd : d1 = CONTINUE).
      { destruct d1; [ reflexivity | exfalso ].
        revert Hcb. rewrite callback_where.
        destruct (call_where c =? GRB_Callback_MIP)%Z; [ | discriminate ].
        evaluate_cases s (call_model c) (call_now c); try discriminate.
        intros _. rewrite (Hold t c eq_refl (or_introl eq_refl)) in Hstall.
        discriminate. }
      subst d1.
      destruct (IH s1) as (s2 & Hrun).
      + eapply callback_has_time; eassumption.
      + intros t c2 Ht Hin.
        destruct (callback_step _ _ _ _ _ _ Hcb) as [-> | (_ & _ & _ & ->)].
        * apply (Hold t c2 Ht). right. assumption.
        * cbn [last_gap_change_time] in Ht. inversion Ht. subst t.
          apply Hpair; [ left; reflexivity | right; assumption ].
      + intros c1 c2 H1 H2. apply Hpair; right; assumption.
      + exists s2. rewrite (run_cons _ _ _ _ _ Hcb), Hrun. reflexivity. }
  intros Hpair. apply Hgen.
  - intros H. discriminate.
  - intros t c Ht. discriminate.
  - assumption.
Qed.

Lemma close_calls_never_terminate_witness :
  exists s,
    run CallbackData_init
      [ evaluate_call snapshot_gap_0_10 0; evaluate_call snapshot_gap_0_10 15 ]
    = Py.Ok (s, repeat CONTINUE 2).
Proof.
  apply (close_calls_never_terminate
           [ evaluate_call snapshot_gap_0_10 0; evaluate_call snapshot_gap_0_10 15 ]).
  intros c1 c2 [<- | [<- | []]] [<- | [<- | []]]; reflexivity.
Defined.

(** X8: the calls whose gap is not read (other phases of the solver,
    snapshots without a solution) are invisible: they all return
    CONTINUE, and dropping them from a run changes neither the final state
    nor the decisions of the other calls. *)
Theorem unread_calls_are_invisible (calls : list Call) (s s' : CallbackData)
    (ds : list Decision) :
  run s calls = Py.Ok (s', ds) ->
  run s (filter reads_gap calls) = Py.Ok (s', decisions_on_read calls ds)
  /\ Forall (fun p => reads_gap (fst p) = false -> snd p = CONTINUE)
            (combine calls ds).
Proof.
  revert s s' ds. induction calls as [ | c rest IH ]; intros s s' ds Hrun.
  - apply run_inv in Hrun. destruct Hrun as [-> ->].
    split; [ reflexivity | constructor ].
  - apply run_inv in Hrun. destruct Hrun as (s1 & d1 & ds1 & Hcb & Hrest & ->).
    destruct (IH s1 s' ds1 Hrest) as [IHrun IHall].
    unfold decisions_on_read in *. cbn [filter combine fst snd].
    destruct (reads_gap c) eqn:Hread.
    + split.
      * cbn [map snd]. rewrite (run_cons _ _ _ _ _ Hcb), IHrun. reflexivity.
      * constructor; [ cbn [fst]; congruence | assumption ].
    + rewrite (callback_not_read s c Hread) in Hcb. inversion Hcb. subst s1 d1.
      split; [ assumption | ].
      constructor; [ reflexivity | assumption ].
Qed.

Lemma unread_calls_are_invisible_witness :
  run CallbackData_init
    (filter reads_gap
       [ mkCall 4 snapshot_gap_0_10 0; evaluate_call snapshot_gap_0_10 1;
         evaluate_call (mkModel 0 0 0) 2; evaluate_call snapshot_gap_0_10 30 ])
  = Py.Ok ({| last_gap_change_time := Some 1; last_gap := 0.1 |},
           decisions_on_read
             [ mkCall 4 snapshot_gap_0_10 0; evaluate_call snapshot_gap_0_10 1;
               evaluate_call (mkModel 0 0 0) 2; evaluate_call snapshot_gap_0_10 30 ]
             [CONTINUE; CONTINUE; CONTINUE; TERMINATE])
  /\ Forall (fun p => reads_gap (fst p) = false -> snd p = CONTINUE)
            (combine
               [ mkCall 4 snapshot_gap_0_10 0; evaluate_call snapshot_gap_0_10 1;
                 evaluate_call (mkModel 0 0 0) 2; evaluate_call snapshot_gap_0_10 30 ]
               [CONTINUE; CONTINUE; CONTINUE; TERMINATE]).
Proof.
  apply (unread_calls_are_invisible _ CallbackData_init).
  vm_compute. reflexivity.
Defined.

(** X9: a gap that is not smaller than the stored one is never taken for
    an improvement, whatever the rounding of the difference: in TRACKING
    such a call leaves the state as it is. *)
Theorem worse_gap_changes_nothing (s s' : CallbackData) (m : Model)
    (now gap : float) (d : Decision) :
  phase s = TRACKING ->
  mip_gap (MIP_OBJBST m) (MIP_OBJBND m) = Py.Ok gap ->
  (last_gap s <=? gap) = true ->
  evaluate s m now = Py.Ok (s', d) -> s' = s.
Proof.
  unfold phase. intros Hph Hgap Hle. rewrite mip_gap_ok in Hgap.
  inversion Hgap as [Hg].
  evaluate_cases s m now; intros H; inversion H; subst; try reflexivity.
  - cbn in Hph. discriminate.
  - apply FloatFacts.sub_gt_epsilon in Himp.
    rewrite (FloatEdge.leb_not_gt _ _ Hle) in Himp. discriminate.
Qed.

Lemma worse_gap_changes_nothing_witness :
  {| last_gap_change_time := Some 5; last_gap := 0.095 |}
  = {| last_gap_change_time := Some 5; last_gap := 0.095 |}.
Proof.
  apply (worse_gap_changes_nothing
           {| last_gap_change_time := Some 5; last_gap := 0.095 |}
           {| last_gap_change_time := Some 5; last_gap := 0.095 |}
           snapshot_gap_0_10 6 0.1 CONTINUE).
  - reflexivity.
  - reflexivity.
  - reflexivity.
  - reflexivity.
Defined.

(** X10: a NaN gap freezes the monitor: once [last_gap] is NaN (the first
    gap read came from a NaN figure), no later call of the run changes
    [cbdata] any more, whatever gaps follow. *)
Theorem nan_gap_freezes (s : CallbackData) (calls : list Call)
    (i j : nat) (si sj : CallbackData) :
  (i <= j)%nat ->
  nth_error (states s calls) i = Some si ->
  nth_error (states s calls) j = Some sj ->
  is_nan (last_gap si) = true -> sj = si.
Proof.
  intros Hij Hi Hj Hnan.
  apply (states_preserve (fun x => x = si)) with (calls := calls) (s := s)
                                                 (i := i) (j := j) (si := si);
    try assumption; [ | reflexivity ].
  intros s0 w m now s1 d -> Hcb. revert Hcb. rewrite callback_where.
  destruct (w =? GRB_Callback_MIP)%Z; [ | intros H; inversion H; reflexivity ].
  rewrite evaluate_eq, (FloatEdge.nan_not_infinity _ Hnan),
    (FloatEdge.nan_sub_not_above _ _ _ Hnan).
  destruct (MIP_SOLCNT m =? 0)%Z; [ intros H; inversion H; reflexivity | ].
  destruct (last_gap_change_time si) as [t | ]; [ | discriminate ].
  destruct (max_time_between_gap_updates <? now - t);
    intros H; inversion H; reflexivity.
Qed.

Lemma nan_gap_freezes_witness :
  {| last_gap_change_time := Some 0; last_gap := nan |}
  = {| last_gap_change_time := Some 0; last_gap := nan |}.
Proof.
  apply (nan_gap_freezes CallbackData_init
           [ evaluate_call (mkModel 1 9000 nan) 0; evaluate_call snapshot_gap_0_10 1;
             evaluate_call snapshot_gap_0_095 2 ]
           1 3
           {| last_gap_change_time := Some 0; last_gap := nan |}
           {| last_gap_change_time := Some 0; last_gap := nan |}).
  - repeat constructor.
  - reflexivity.
  - reflexivity.
  - reflexivity.
Defined.
